(** * cursed: the outcome type, the controller and the window registry

    A shallow embedding of [cursed/app.py] and [cursed/meta.py].

    - [Module Py] holds the fragment of the Python object model that the two
      files rely on: exception classes with their single-inheritance chain,
      exception instances, and the triple returned by [sys.exc_info()].
    - [Module App] embeds [Result] and [CursedApp].
    - [Module Meta] embeds the metaclass [CursedWindowClass] and the
      process-wide registry [WINDOWS]. *)

From stdpp Require Import gmap strings list fin_maps.
From Stdlib Require Import ZArith Lia.

Open Scope string_scope.
Open Scope Z_scope.
Open Scope list_scope.

(* ===================================================================== *)
(** ** Python objects used by the code *)
(* ===================================================================== *)

Module Py.

(** Exception classes.  The three built-in classes the code names are
    constructors of their own, so that the identity test [is] on classes is
    equality of constructors; every other class (built-in or declared by the
    host program) is a [UserClass] with its name and its base class. *)
Inductive PyType : Type :=
| BaseException
| Exception
| KeyboardInterrupt
| UserClass (name : string) (base : PyType).

#[global] Instance PyType_eq_dec : EqDecision PyType.
Proof. solve_decision. Defined.

(** [t.__name__] *)
Definition __name__ (t : PyType) : string :=
  match t with
  | BaseException => "BaseException"
  | Exception => "Exception"
  | KeyboardInterrupt => "KeyboardInterrupt"
  | UserClass name _ => name
  end.

(** [issubclass(t, u)]: [u] is [t] or one of its ancestors. *)
Fixpoint issubclass (t u : PyType) : bool :=
  bool_decide (t = u) ||
  match t with
  | BaseException => false
  | Exception => bool_decide (u = BaseException)
  | KeyboardInterrupt => bool_decide (u = BaseException)
  | UserClass _ base => issubclass base u
  end.

(** A traceback: the line numbers of the frames it goes through. *)
Definition Traceback : Type := list nat.

(** An exception instance: its class ([type(e)]), its text ([str(e)]) and
    its truth value ([bool(e)]).  [BaseException] defines neither
    [__bool__] nor [__len__], so an instance is true unless its class
    defines one of them to say otherwise. *)
Record PyExc : Type := mkExc {
  type_of : PyType;
  str_of : string;
  bool_of : bool
}.

#[global] Instance PyExc_eq_dec : EqDecision PyExc.
Proof. solve_decision. Defined.

(** [isinstance(e, u)] *)
Definition isinstance (e : PyExc) (u : PyType) : bool := issubclass (type_of e) u.

(** [bool(x)] for [x] either [None] or an exception instance. *)
Definition truth (x : option PyExc) : bool :=
  match x with
  | Some e => bool_of e
  | None => false
  end.

(** [str(x)] for [x] either [None] or an exception instance. *)
Definition str (x : option PyExc) : string :=
  match x with
  | Some e => str_of e
  | None => "None"
  end.

(** The three values [(type, value, traceback)] of [sys.exc_info()] and of
    a failed greenlet's [exc_info]. *)
Record ExcInfo : Type := mkInfo {
  info_type : option PyType;
  info_value : option PyExc;
  info_tb : option Traceback
}.

(** An exception in flight: the instance and the traceback it carries. *)
Record Raised : Type := mkRaised { exn : PyExc; exn_tb : option Traceback }.

(** [sys.exc_info()] while [r] is being handled. *)
Definition exc_info_of (r : Raised) : ExcInfo :=
  {| info_type := Some (type_of (exn r));
     info_value := Some (exn r);
     info_tb := exn_tb r |}.

End Py.

Import Py.

(* ===================================================================== *)
(** ** cursed/app.py *)
(* ===================================================================== *)

Module App.

(** *** class Result *)

Record Result : Type := mkResult {
  exc_type : option PyType;
  exc : option PyExc;
  tb : option Traceback
}.

(** [Result.__init__] *)
Definition Result__init__ : Result :=
  {| exc_type := None; exc := None; tb := None |}.

(** [Result._extract_exception]: the three fields are overwritten with
    [sys.exc_info()], given here as [info]. *)
Definition _extract_exception (info : ExcInfo) (self : Result) : Result :=
  {| exc_type := info_type info; exc := info_value info; tb := info_tb info |}.

(** [six.reraise(tp, value, tb)]: [value] propagates with traceback [tb]. *)
Definition six_reraise (tp : option PyType) (value : PyExc)
    (tb : option Traceback) : Raised :=
  {| exn := value; exn_tb := tb |}.

(** [Result.unwrap]: [inl tt] when the call returns, [inr r] when [r]
    propagates out of it. *)
Definition unwrap (self : Result) : unit + Raised :=
  match exc self with
  | Some e =>
      if truth (exc self) then inr (six_reraise (exc_type self) e (tb self))
      else inl tt
  | None => inl tt
  end.

(** [Result.ok] *)
Definition ok (self : Result) : bool := negb (truth (exc self)).

(** [Result.err] *)
Definition err (self : Result) : option PyExc :=
  if truth (exc self) then exc self else None.

(** [Result.interrupted]: identity of the class, not [isinstance]. *)
Definition interrupted (self : Result) : bool :=
  bool_decide (exc_type self = Some KeyboardInterrupt).

(** [Result.__repr__] *)
Definition __repr__ (self : Result) : string :=
  match exc_type self with
  | None => "Result(OKAY)"
  | Some t =>
      if interrupted self then "Result(KeyboardInterrupt)"
      else "Result(" +:+ __name__ t +:+ ", message=" +:+ str (exc self) +:+ ")"
  end.

(** *** curses and gevent *)

(** The two curses window objects the controller holds: the screen returned
    by [curses.initscr()] and the sub-window made by [scr.subwin(0, 0)]. *)
Inductive CursesWin : Type := Stdscr | Subwin.

#[global] Instance CursesWin_eq_dec : EqDecision CursesWin.
Proof. solve_decision. Defined.

(** The calls the controller makes on curses, gevent, the window class and
    the windows' queues, with their arguments; [getch c] is a call of
    [window.getch()] that returned [c], [put i c] is
    [cw.KEY_EVENTS.put(c)] on the [i]-th window of [self.windows], and
    [spawn g] is a [gevent.spawn] that made the greenlet [g]. *)
Inductive Call : Type :=
| initscr | getmaxyx | noecho | cbreak | start_color | use_default_colors
| subwin (y x : Z)
| keypad (w : CursesWin) (flag : Z)
| nodelay (w : CursesWin) (flag : Z)
| fix_windows (width height : Z)
| spawn (g : nat)
| joinall (gs : list nat)
| sleep (seconds : Z)
| getch (c : Z)
| put (i : nat) (c : Z)
| echo | nocbreak | endwin.

#[global] Instance Call_eq_dec : EqDecision Call.
Proof. solve_decision. Defined.

(** A greenlet: still to finish, finished without error, or finished with
    the exception it raised. *)
Inductive Greenlet : Type :=
| Pending
| Succeeded
| Failed (r : Raised).

(** [Greenlet.exception]: the exception instance of a failed greenlet,
    [None] otherwise. *)
Definition exception (g : Greenlet) : option PyExc :=
  match g with
  | Failed r => Some (exn r)
  | _ => None
  end.

(** [Greenlet.exc_info]: the triple of a failed greenlet; otherwise a value
    that is not a triple, [None] here. *)
Definition exc_info (g : Greenlet) : option ExcInfo :=
  match g with
  | Failed r => Some (exc_info_of r)
  | _ => None
  end.

(** *** Windows, the controller and the world they live in *)

(** What the controller reads and writes of a window class: the handle of
    its task ([THREAD], an attribute that only [_run_windows] sets), the
    flags [RUNNING] and [WAIT], and the content of its [KEY_EVENTS] queue,
    oldest key first.  Each window has a queue of its own
    (cursed/meta.py, line 36). *)
Record CursedWindow : Type := mkWindow {
  THREAD : option nat;
  RUNNING : bool;
  WAIT : bool;
  KEY_EVENTS : list Z
}.

Definition set_THREAD (g : option nat) (cw : CursedWindow) : CursedWindow :=
  {| THREAD := g; RUNNING := RUNNING cw; WAIT := WAIT cw;
     KEY_EVENTS := KEY_EVENTS cw |}.

Definition set_RUNNING (b : bool) (cw : CursedWindow) : CursedWindow :=
  {| THREAD := THREAD cw; RUNNING := b; WAIT := WAIT cw;
     KEY_EVENTS := KEY_EVENTS cw |}.

(** [cw.KEY_EVENTS.put(c)]: the queue is unbounded, the put never blocks. *)
Definition KEY_EVENTS_put (c : Z) (cw : CursedWindow) : CursedWindow :=
  {| THREAD := THREAD cw; RUNNING := RUNNING cw; WAIT := WAIT cw;
     KEY_EVENTS := KEY_EVENTS cw ++ [c] |}.

(** The attributes of a [CursedApp] that are read somewhere ([menu] and
    [active_window] are only ever written).  Handles of greenlets are their
    indices in the world's list of greenlets.  [MAX_HEIGHT], [MAX_WIDTH]
    and [window] do not exist before [run] sets them. *)
Record CursedApp : Type := mkApp {
  scr : option CursesWin;
  threads : list nat;
  windows : option (list CursedWindow);
  running : bool;
  MAX_HEIGHT : option Z;
  MAX_WIDTH : option Z;
  window : option CursesWin
}.

(** [CursedApp.__init__] *)
Definition CursedApp__init__ : CursedApp :=
  {| scr := None; threads := []; windows := None; running := true;
     MAX_HEIGHT := None; MAX_WIDTH := None; window := None |}.

(** The controller together with every greenlet spawned so far.  A window's
    [THREAD] and the entries of [threads] name greenlets of this list, so a
    handle stored in both places is one greenlet. *)
Record World : Type := mkWorld {
  app : CursedApp;
  greenlets : list Greenlet
}.

Definition with_app (f : CursedApp -> CursedApp) (w : World) : World :=
  {| app := f (app w); greenlets := greenlets w |}.

Definition set_scr (s : option CursesWin) (a : CursedApp) : CursedApp :=
  {| scr := s; threads := threads a; windows := windows a;
     running := running a; MAX_HEIGHT := MAX_HEIGHT a;
     MAX_WIDTH := MAX_WIDTH a; window := window a |}.

Definition set_threads (l : list nat) (a : CursedApp) : CursedApp :=
  {| scr := scr a; threads := l; windows := windows a;
     running := running a; MAX_HEIGHT := MAX_HEIGHT a;
     MAX_WIDTH := MAX_WIDTH a; window := window a |}.

Definition set_windows (ws : option (list CursedWindow)) (a : CursedApp)
    : CursedApp :=
  {| scr := scr a; threads := threads a; windows := ws;
     running := running a; MAX_HEIGHT := MAX_HEIGHT a;
     MAX_WIDTH := MAX_WIDTH a; window := window a |}.

Definition set_running (b : bool) (a : CursedApp) : CursedApp :=
  {| scr := scr a; threads := threads a; windows := windows a;
     running := b; MAX_HEIGHT := MAX_HEIGHT a;
     MAX_WIDTH := MAX_WIDTH a; window := window a |}.

Definition set_maxyx (yx : Z * Z) (a : CursedApp) : CursedApp :=
  {| scr := scr a; threads := threads a; windows := windows a;
     running := running a; MAX_HEIGHT := Some (fst yx);
     MAX_WIDTH := Some (snd yx); window := window a |}.

Definition set_window (s : option CursesWin) (a : CursedApp) : CursedApp :=
  {| scr := scr a; threads := threads a; windows := windows a;
     running := running a; MAX_HEIGHT := MAX_HEIGHT a;
     MAX_WIDTH := MAX_WIDTH a; window := s |}.

(** The greenlet behind a handle. *)
Definition greenlet (gs : list Greenlet) (g : nat) : Greenlet :=
  default Pending (gs !! g).

(** Exceptions Python itself raises on a missing attribute and on iterating
    or unpacking [None]. *)
Definition AttributeError (msg : string) : Raised :=
  {| exn := mkExc (UserClass "AttributeError" Exception) msg true;
     exn_tb := Some [] |}.

Definition TypeError (msg : string) : Raised :=
  {| exn := mkExc (UserClass "TypeError" Exception) msg true;
     exn_tb := Some [] |}.

(** *** CursedApp._input_loop *)

(** What the [for cw in self.windows] scan at the head of an iteration
    comes to: [Failure] when it reaches a window whose task has an
    exception (lines 120-124), [Listening] when it reaches a window that is
    running and waiting (lines 125-126), [Nobody] when it runs to the end of
    the list and the [else] clause is taken (lines 127-129), [Broken] when
    it reaches a window that has no [THREAD] attribute. *)
Inductive Scan : Type :=
| Failure
| Listening
| Nobody
| Broken (r : Raised).

Fixpoint scan (gs : list Greenlet) (ws : list CursedWindow) : Scan :=
  match ws with
  | [] => Nobody
  | cw :: rest =>
      match THREAD cw with
      | None => Broken (AttributeError "THREAD")
      | Some g =>
          if bool_decide (exception (greenlet gs g) <> None) then Failure
          else if RUNNING cw && WAIT cw then Listening
          else scan gs rest
      end
  end.

(** Lines 121-123: every window's [RUNNING] and the controller's [running]
    are set to [False]. *)
Definition stop_all (w : World) : World :=
  with_app (fun a =>
    set_running false
      (set_windows (fmap (M := option) (map (set_RUNNING false)) (windows a)) a)) w.

(** How an iteration of the [while] loop ends: at its last statement or at
    [continue] ([Next]), at the [break] of the [else] clause ([Break]), or
    with an exception ([Throw]). *)
Inductive Ending : Type :=
| Next
| Break
| Throw (r : Raised).

(** How the loop as a whole ends within the iterations allowed to it. *)
Inductive Status : Type :=
| Finished
| Crashed (r : Raised)
| OutOfFuel.

Section InputLoop.

(** [sched k w]: what the other greenlets have made of the world [w] when
    the [k]-th [gevent.sleep(0)] returns.  [tty k]: what the [k]-th
    [self.window.getch()] returns, [-1] when no key is waiting. *)
Variable sched : nat -> World -> World.
Variable tty : nat -> Z.

(** The calls of lines 134-135 when there are [n] windows. *)
Definition puts (c : Z) (n : nat) : list Call :=
  map (fun i => put i c) (seq 0 n).

(** Lines 134-135: the world after them and the calls made. *)
Definition broadcast (c : Z) (w : World) : World * list Call * Ending :=
  match windows (app w) with
  | None => (w, [], Throw (TypeError "'NoneType' object is not iterable"))
  | Some ws =>
      (with_app (set_windows (Some (map (KEY_EVENTS_put c) ws))) w,
       puts c (length ws),
       Next)
  end.

(** Lines 130-135, the part of the iteration after the scan: the yield,
    then [self.window.getch()], which raises when the controller has no
    [window] attribute, then the broadcast. *)
Definition poll (k : nat) (w : World) : World * list Call * Ending :=
  let w1 := sched k w in
  match window (app w1) with
  | None => (w1, [sleep 0], Throw (AttributeError "window"))
  | Some _ =>
      let c := tty k in
      if c =? -1 then (w1, [sleep 0; getch c], Next)
      else
        let '(w2, puts, e) := broadcast c w1 in
        (w2, [sleep 0; getch c] ++ puts, e)
  end.

(** The calls of lines 130-135, written out. *)
Definition poll_log (k : nat) (w : World) : list Call :=
  match window (app (sched k w)) with
  | None => [sleep 0]
  | Some _ =>
      [sleep 0; getch (tty k)] ++
      (if tty k =? -1 then []
       else match windows (app (sched k w)) with
            | Some ws1 => puts (tty k) (length ws1)
            | None => []
            end)
  end.

(** Lines 119-135, one iteration of the [while] loop. *)
Definition iteration (k : nat) (w : World) : World * list Call * Ending :=
  match windows (app w) with
  | None => (w, [], Throw (TypeError "'NoneType' object is not iterable"))
  | Some ws =>
      match scan (greenlets w) ws with
      | Broken r => (w, [], Throw r)
      | Failure => poll k (stop_all w)
      | Listening => poll k w
      | Nobody => (with_app (set_running false) w, [], Break)
      end
  end.

(** Lines 117-135: at most [fuel] iterations, the first of them being the
    [k]-th of the task. *)
Fixpoint _input_loop (fuel : nat) (k : nat) (w : World)
    : World * list Call * Status :=
  if running (app w) then
    match fuel with
    | O => (w, [], OutOfFuel)
    | S fuel' =>
        match iteration k w with
        | (w1, tr, Next) =>
            let '(w2, tr', st) := _input_loop fuel' (S k) w1 in
            (w2, tr ++ tr', st)
        | (w1, tr, Break) => (w1, tr, Finished)
        | (w1, tr, Throw r) => (w1, tr, Crashed r)
        end
    end
  else (w, [], Finished).

End InputLoop.

(** *** CursedApp.run *)

(** What a call of [run] meets outside the controller: which of the calls
    it makes raises, and what ([raises]); the size of the terminal
    ([maxyx], height first); the registry [CursedWindowClass.WINDOWS] as
    [fix_windows] leaves it ([WINDOWS]); and how the task behind each handle
    has ended once [gevent.joinall] returns ([outcome], [None] for a task
    that ended without error).  The bodies of the window tasks and of
    [fix_windows] belong to cursed/window.py.

    The tasks run while the join lasts, the window tasks and [_input_loop]
    alike: [tasks_window i cw] is the [i]-th window as they have left it when
    the join is over, of which [RUNNING], [WAIT] and [KEY_EVENTS] are taken
    ([THREAD] is assigned at line 114 and nowhere else);
    [tasks_running b] is [self.running] as they have left it; and
    [progress g] is how far the task behind the handle [g] has got when a
    join that raises is left. *)
Record Env : Type := mkEnv {
  raises : Call -> option Raised;
  maxyx : Z * Z;
  WINDOWS : list CursedWindow;
  outcome : nat -> option Raised;
  progress : nat -> Greenlet;
  tasks_window : nat -> CursedWindow -> CursedWindow;
  tasks_running : bool -> bool
}.

(** Statements of [run]: they change the world, append to the log of the
    calls made so far, and either yield a value or raise. *)
Definition M (A : Type) : Type :=
  World * list Call -> World * list Call * (A + Raised).

Definition ret {A : Type} (a : A) : M A := fun s => (s, inl a).

Definition bind {A B : Type} (m : M A) (f : A -> M B) : M B :=
  fun s =>
    match m s with
    | (s1, inl a) => f a s1
    | (s1, inr r) => (s1, inr r)
    end.

#[global] Instance M_ret : MRet M := @ret.
#[global] Instance M_bind : MBind M := fun A B f m => bind m f.

Definition raise {A : Type} (r : Raised) : M A := fun s => (s, inr r).

Definition lift {A : Type} (x : A + Raised) : M A := fun s => (s, x).

Definition get : M World := fun s => (s, inl (fst s)).

Definition modify (f : World -> World) : M unit :=
  fun s => ((f (fst s), snd s), inl tt).

(** A call is logged, then it returns or raises as [env] has it. *)
Definition call (env : Env) (c : Call) : M unit :=
  fun s =>
    ((fst s, snd s ++ [c]),
     match raises env c with
     | Some r => inr r
     | None => inl tt
     end).

(** [try: body / except: handler] *)
Definition try_except {A : Type} (body : M A) (handler : Raised -> M A) : M A :=
  fun s =>
    match body s with
    | (s1, inl a) => (s1, inl a)
    | (s1, inr r) => handler r s1
    end.

(** [try: body / finally: cleanup]: the clean-up runs however the body
    ends; what the body returned or raised stands unless the clean-up
    raises itself. *)
Definition finally {A : Type} (body : M A) (cleanup : M unit) : M A :=
  fun s =>
    let '(s1, res) := body s in
    match cleanup s1 with
    | (s2, inl _) => (s2, res)
    | (s2, inr r) => (s2, inr r)
    end.

(** [gevent.spawn]: a new greenlet, which has not run yet. *)
Definition gevent_spawn (env : Env) : M nat :=
  w ← get;
  let g := length (greenlets w) in
  call env (spawn g) ;;
  modify (fun w => {| app := app w; greenlets := greenlets w ++ [Pending] |}) ;;
  ret g.

(** Lines 112-115, from the [i]-th window on, [n] windows to go. *)
Fixpoint spawn_windows (env : Env) (i n : nat) : M unit :=
  match n with
  | O => ret tt
  | S n' =>
      thread ← gevent_spawn env;
      modify (with_app (fun a =>
        set_threads (threads a ++ [thread])
          (set_windows
             (fmap (M := option) (alter (set_THREAD (Some thread)) i) (windows a))
             a))) ;;
      spawn_windows env (S i) n'
  end.

(** [CursedApp._run_windows] *)
Definition _run_windows (env : Env) : M unit :=
  w ← get;
  match MAX_WIDTH (app w), MAX_HEIGHT (app w) with
  | Some width, Some height =>
      call env (fix_windows width height) ;;
      modify (with_app (set_windows (Some (WINDOWS env)))) ;;
      spawn_windows env 0 (length (WINDOWS env))
  | _, _ => raise (AttributeError "MAX_WIDTH")
  end.

(** What [gevent.joinall(ts)] makes of the [i]-th greenlet: a greenlet of
    [ts] that had not finished has finished as [env] has it. *)
Definition settle (env : Env) (ts : list nat) (i : nat) (g : Greenlet) : Greenlet :=
  match g with
  | Pending =>
      if bool_decide (i ∈ ts) then
        match outcome env i with
        | Some r => Failed r
        | None => Succeeded
        end
      else Pending
  | _ => g
  end.

(** What a [gevent.joinall(ts)] that raises has made of the [i]-th
    greenlet when it is left: a greenlet of [ts] that had not finished has
    got as far as [env] has it. *)
Definition cut_short (env : Env) (ts : list nat) (i : nat) (g : Greenlet) : Greenlet :=
  match g with
  | Pending => if bool_decide (i ∈ ts) then progress env i else Pending
  | _ => g
  end.

(** The [i]-th window once the tasks have run. *)
Definition touched (env : Env) (i : nat) (cw : CursedWindow) : CursedWindow :=
  {| THREAD := THREAD cw;
     RUNNING := RUNNING (tasks_window env i cw);
     WAIT := WAIT (tasks_window env i cw);
     KEY_EVENTS := KEY_EVENTS (tasks_window env i cw) |}.

(** The world once the tasks have run, the greenlets having become what
    [f] makes of them. *)
Definition tasks_ran (env : Env) (f : nat -> Greenlet -> Greenlet) (w : World)
    : World :=
  {| app := set_running (tasks_running env (running (app w)))
              (set_windows (imap (touched env) <$> windows (app w)) (app w));
     greenlets := imap f (greenlets w) |}.

(** [gevent.joinall(self.threads)]: the tasks run, then the call returns,
    every greenlet joined having finished, or raises, the greenlets being
    where they are. *)
Definition gevent_joinall (env : Env) : M unit :=
  w ← get;
  let ts := threads (app w) in
  modify (tasks_ran env (match raises env (joinall ts) with
                         | Some _ => cut_short env ts
                         | None => settle env ts
                         end)) ;;
  call env (joinall ts).

(** [Result._extract_thread_exception]: unpacking a value that is not a
    triple raises. *)
Definition _extract_thread_exception (thread : Greenlet) (self : Result)
    : Result + Raised :=
  match exc_info thread with
  | Some info =>
      inl {| exc_type := info_type info; exc := info_value info;
             tb := info_tb info |}
  | None => inr (TypeError "cannot unpack non-iterable NoneType object")
  end.

(** Lines 157-159: the handles are inspected in list order, every failed
    one overwriting the fields of [result]. *)
Fixpoint inspect (gs : list Greenlet) (ts : list nat) (result : Result)
    : Result + Raised :=
  match ts with
  | [] => inl result
  | t :: rest =>
      let thread := greenlet gs t in
      if truth (exception thread) then
        match _extract_thread_exception thread result with
        | inl result' => inspect gs rest result'
        | inr r => inr r
        end
      else inspect gs rest result
  end.

(** Lines 146-159, the body of the [try] once [self.scr] is set. *)
Definition run_with_screen (env : Env) (result : Result) : M Result :=
  call env getmaxyx ;;
  modify (with_app (set_maxyx (maxyx env))) ;;
  call env noecho ;;
  call env cbreak ;;
  call env start_color ;;
  call env use_default_colors ;;
  call env (subwin 0 0) ;;
  modify (with_app (set_window (Some Subwin))) ;;
  call env (keypad Subwin 1) ;;
  call env (nodelay Subwin 1) ;;
  _run_windows env ;;
  thread ← gevent_spawn env;
  modify (with_app (fun a => set_threads (threads a ++ [thread]) a)) ;;
  gevent_joinall env ;;
  w ← get;
  lift (inspect (greenlets w) (threads (app w)) result).

(** Lines 145-159, the body of the [try]. *)
Definition run_body (env : Env) (result : Result) : M Result :=
  call env initscr ;;
  modify (with_app (set_scr (Some Stdscr))) ;;
  run_with_screen env result.

(** Lines 160-163: a [KeyboardInterrupt] and any other [Exception] are
    caught and all three fields of [result] overwritten; anything else
    propagates. *)
Definition run_except (result : Result) (r : Raised) : M Result :=
  if isinstance (exn r) KeyboardInterrupt then
    ret (_extract_exception (exc_info_of r) result)
  else if isinstance (exn r) Exception then
    ret (_extract_exception (exc_info_of r) result)
  else raise r.

(** Lines 164-169, the [finally] clause. *)
Definition run_finally (env : Env) : M unit :=
  w ← get;
  match scr (app w) with
  | Some s =>
      call env (keypad s 0) ;;
      call env echo ;;
      call env nocbreak ;;
      call env endwin
  | None => ret tt
  end.

(** [CursedApp.run]: the world after the call, the calls made, and the
    [Result] returned or the exception that propagates. *)
Definition run (env : Env) (w : World) : World * list Call * (Result + Raised) :=
  let result := Result__init__ in
  finally
    (try_except (run_body env result) (run_except result))
    (run_finally env)
    (w, []).

(** *** Reading a call of [run] *)

(** The world a call of [run] leaves and what the call returns or raises. *)
Definition world_after (env : Env) (w : World) : World := fst (fst (run env w)).

Definition returned (env : Env) (w : World) : Result + Raised := snd (run env w).

Definition calls_of (env : Env) (w : World) : list Call := snd (fst (run env w)).

(** Of calls written one after the other, those that are made: up to and
    with the first that raises. *)
Fixpoint attempted (env : Env) (cs : list Call) : list Call :=
  match cs with
  | [] => []
  | c :: rest =>
      c :: match raises env c with
           | Some _ => []
           | None => attempted env rest
           end
  end.

(** The calls of the [finally] clause on the screen [s]. *)
Definition cleanup_calls (s : CursesWin) : list Call :=
  [keypad s 0; echo; nocbreak; endwin].

(** In the words of the specification: the last handle, in the order of the
    task list, that records a failure, with what it raised. *)
Definition last_failed (gs : list Greenlet) (ts : list nat) : option Raised :=
  last (omap (fun t => match greenlet gs t with
                       | Failed r => Some r
                       | _ => None
                       end) ts).

(** What lines 157-159 take for a failure: the last handle, in the order
    of the task list, whose [exception] is true in a boolean context. *)
Definition last_seen (gs : list Greenlet) (ts : list nat) : option Raised :=
  last (omap (fun t => match greenlet gs t with
                       | Failed r => if bool_of (exn r) then Some r else None
                       | _ => None
                       end) ts).

(** The [Result] that holds the class, the instance and the traceback of
    [r]. *)
Definition outcome_of (r : Raised) : Result :=
  {| exc_type := Some (type_of (exn r)); exc := Some (exn r); tb := exn_tb r |}.

(** A statement along which the controller only moves as [Q] allows. *)
Definition along (Q : CursedApp -> CursedApp -> Prop) {A : Type} (m : M A) : Prop :=
  forall s, Q (app (fst s)) (app (fst (fst (m s)))).

(** *** Reading logs and worlds *)

(** What the [getch] calls of a log returned, [-1] included. *)
Definition chars_read (tr : list Call) : list Z :=
  flat_map (fun c =>
    match c with
    | getch key => [key]
    | _ => []
    end) tr.

(** The keys a log shows as read, the [-1] of "no key" left out. *)
Definition keys_read (tr : list Call) : list Z :=
  filter (fun key => key <> -1) (chars_read tr).

(** The keys a log shows as put in the queue of the [i]-th window. *)
Definition keys_put (i : nat) (tr : list Call) : list Z :=
  flat_map (fun c =>
    match c with
    | put j key => if bool_decide (j = i) then [key] else []
    | _ => []
    end) tr.

(** The number of windows in [self.windows]. *)
Definition window_count (w : World) : option nat :=
  length <$> windows (app w).

(** The content of the [KEY_EVENTS] queue of the [i]-th window. *)
Definition queue (i : nat) (w : World) : option (list Z) :=
  ws ← windows (app w); cw ← ws !! i; Some (KEY_EVENTS cw).

(** *** Worlds and surroundings to run the definitions on *)

Definition ValueError (msg : string) : Raised :=
  {| exn := mkExc (UserClass "ValueError" Exception) msg true;
     exn_tb := Some [42%nat] |}.

Definition curses_error (msg : string) : Raised :=
  {| exn := mkExc (UserClass "error" Exception) msg true;
     exn_tb := Some [145%nat] |}.

(** A new controller in a process that has spawned nothing yet. *)
Definition new_world : World :=
  {| app := CursedApp__init__; greenlets := [] |}.

(** A window as it is before [_run_windows] gives it a task. *)
Definition idle_window : CursedWindow :=
  {| THREAD := None; RUNNING := true; WAIT := true; KEY_EVENTS := [] |}.

(** One window, running and waiting, whose task has failed. *)
Definition one_failed_world : World :=
  {| app := set_window (Some Subwin)
              (set_windows (Some [set_THREAD (Some 0%nat) idle_window])
                 CursedApp__init__);
     greenlets := [Failed (ValueError "boom")] |}.

(** Two windows, running and waiting, whose tasks are under way. *)
Definition two_windows_world : World :=
  {| app := set_window (Some Subwin)
              (set_windows (Some [set_THREAD (Some 0%nat) idle_window;
                                  set_THREAD (Some 1%nat) idle_window])
                 CursedApp__init__);
     greenlets := [Pending; Pending] |}.

(** No other task touches the world; the terminal has the keys of [keys]
    waiting, then nothing. *)
Definition quiet : nat -> World -> World := fun _ w => w.

Definition typed (keys : list Z) : nat -> Z := fun k => default (-1) (keys !! k).

(** Surroundings in which no call raises, with the given registry and
    task outcomes. *)
Definition calm (ws : list CursedWindow) (out : nat -> option Raised) : Env :=
  {| raises := fun _ => None; maxyx := (24, 80); WINDOWS := ws; outcome := out;
     progress := fun _ => Pending;
     tasks_window := fun _ => set_RUNNING false;
     tasks_running := fun _ => false |}.

(** Task outcomes given handle by handle, [None] past the end of the
    list. *)
Definition outcomes (l : list (option Raised)) : nat -> option Raised :=
  fun g => mjoin (l !! g).

(** Surroundings in which [curses.initscr()] raises. *)
Definition no_terminal : Env :=
  {| raises := fun c => if bool_decide (c = initscr)
                        then Some (curses_error "setupterm: could not find terminal")
                        else None;
     maxyx := (24, 80); WINDOWS := []; outcome := fun _ => None;
     progress := fun _ => Pending;
     tasks_window := fun _ => set_RUNNING false;
     tasks_running := fun _ => false |}.

(** *** The rest of [Result] and of the surroundings *)

(** [Result.print_exc]: what [traceback.print_tb(self.tb)] writes, the
    frames of the traceback in order; nothing when [self.tb] is [None]. *)
Definition print_exc (self : Result) : list nat :=
  match tb self with
  | Some t => t
  | None => []
  end.

(** A statement that can only return values for which [P] holds. *)
Definition returns {A : Type} (P : A -> Prop) (m : M A) : Prop :=
  forall s s' a, m s = (s', inl a) -> P a.

(** A new [Result] or one that holds an exception with its class and
    traceback: the only values the [try] statement of [run] yields. *)
Definition well_formed (res : Result) : Prop :=
  res = Result__init__ \/ exists r, res = outcome_of r.

(** An exception of a host class whose instances are false in a boolean
    context ([__bool__] returning [False]), and of such a class derived
    from [KeyboardInterrupt]. *)
Definition Falsy (msg : string) : Raised :=
  {| exn := mkExc (UserClass "Falsy" Exception) msg false; exn_tb := Some [9%nat] |}.

Definition FalsyInterrupt (msg : string) : Raised :=
  {| exn := mkExc (UserClass "FalsyInterrupt" KeyboardInterrupt) msg false;
     exn_tb := Some [9%nat] |}.

(** Another task declares a window class during the yield of the
    iteration [k = 1]: the registry, which [self.windows] is, gets one more
    window. *)
Definition latecomer : nat -> World -> World :=
  fun k w =>
    if (k =? 1)%nat
    then with_app (fun a =>
           set_windows ((fun ws => ws ++ [idle_window]) <$> windows a) a) w
    else w.

Definition SystemExit (msg : string) : Raised :=
  {| exn := mkExc (UserClass "SystemExit" BaseException) msg true;
     exn_tb := Some [7%nat] |}.

Definition interrupt : Raised :=
  {| exn := mkExc KeyboardInterrupt "" true; exn_tb := Some [156%nat] |}.

(** Surroundings in which the calls for which [at_call] holds raise [r] and
    no other call raises; a join that raises [r] is left with the first
    task having failed with it. *)
Definition raising (at_call : Call -> bool) (r : Raised)
    (ws : list CursedWindow) (out : nat -> option Raised) : Env :=
  {| raises := fun c => if at_call c then Some r else None;
     maxyx := (24, 80); WINDOWS := ws; outcome := out;
     progress := fun g => if bool_decide (g = 0%nat) then Failed r else Pending;
     tasks_window := fun _ => set_RUNNING false;
     tasks_running := fun _ => false |}.

Definition is_initscr (c : Call) : bool := bool_decide (c = initscr).

Definition is_joinall (c : Call) : bool :=
  match c with
  | joinall _ => true
  | _ => false
  end.

(** The calls of lines 145-153 and of the first line of [_run_windows], as
    [run] makes them when none raises. *)
Definition setup_calls (env : Env) : list Call :=
  [initscr; getmaxyx; noecho; cbreak; start_color; use_default_colors;
   subwin 0 0; keypad Subwin 1; nodelay Subwin 1;
   fix_windows (snd (maxyx env)) (fst (maxyx env))].

(** What lines 112-115 make of the windows: from the [i]-th on, [n] windows
    get the handles [g], [g + 1], ... in turn. *)
Fixpoint assign_threads (i g n : nat) (ws : list CursedWindow)
    : list CursedWindow :=
  match n with
  | O => ws
  | S n' => assign_threads (S i) (S g) n' (alter (set_THREAD (Some g)) i ws)
  end.

(** The controller and the greenlets when [gevent.joinall] is called in a
    run started in the world [w], and the calls made until then. *)
Definition world_at_join (env : Env) (w : World) : World :=
  let g0 := length (greenlets w) in
  let n := length (WINDOWS env) in
  {| app := {| scr := Some Stdscr;
               threads := threads (app w) ++ seq g0 (S n);
               windows := Some (assign_threads 0 g0 n (WINDOWS env));
               running := running (app w);
               MAX_HEIGHT := Some (fst (maxyx env));
               MAX_WIDTH := Some (snd (maxyx env));
               window := Some Subwin |};
     greenlets := greenlets w ++ replicate (S n) Pending |}.

Definition calls_until_join (env : Env) (w : World) : list Call :=
  setup_calls env
  ++ map spawn (seq (length (greenlets w)) (S (length (WINDOWS env)))).

Definition is_fix_windows (c : Call) : bool :=
  match c with
  | fix_windows _ _ => true
  | _ => false
  end.

(** *** Windows as the scan of [_input_loop] sees them *)

(** The task of the window has raised. *)
Definition task_failed (gs : list Greenlet) (cw : CursedWindow) : bool :=
  match THREAD cw with
  | Some g => bool_decide (exception (greenlet gs g) <> None)
  | None => false
  end.

(** The task of the window has not raised and the window is both running
    and waiting for input. *)
Definition listening (gs : list Greenlet) (cw : CursedWindow) : bool :=
  match THREAD cw with
  | Some g => bool_decide (exception (greenlet gs g) = None)
              && (RUNNING cw && WAIT cw)
  | None => false
  end.

(** The window has a task that has not raised, and is not both running
    and waiting: the scan goes on to the next window. *)
Definition passed_over (gs : list Greenlet) (cw : CursedWindow) : bool :=
  match THREAD cw with
  | Some g => bool_decide (exception (greenlet gs g) = None)
              && negb (RUNNING cw && WAIT cw)
  | None => false
  end.

(** A controller whose window list is empty. *)
Definition no_windows_world : World :=
  {| app := set_window (Some Subwin) (set_windows (Some []) CursedApp__init__);
     greenlets := [] |}.

End App.

(* ===================================================================== *)
(** ** cursed/meta.py *)
(* ===================================================================== *)

Module Meta.

(** The values class attributes take here.  A [Queue] object is named by its
    index in the process's list of queues, so two attributes hold the same
    queue exactly when they hold the same index. *)
#[warnings="-register-all"] Inductive PyVal : Type :=
| VNone
| VBool (b : bool)
| VInt (n : Z)
| VStr (s : string)
| VQueue (q : nat)
| VDict (items : list (string * PyVal))
| VObj (id : nat).

(** A class made by [type.__new__(cls, name, parents, dct)]: its name, the
    names of its bases, and its own attribute dictionary. *)
Record PyClass : Type := mkClass {
  cls_name : string;
  cls_bases : list string;
  cls_dict : gmap string PyVal
}.

(** [setattr(new, key, value)] *)
Definition setattr (new : PyClass) (key : string) (value : PyVal) : PyClass :=
  {| cls_name := cls_name new; cls_bases := cls_bases new;
     cls_dict := <[key := value]> (cls_dict new) |}.

(** [getattr(new, key)] for an attribute the class holds itself. *)
Definition getattr (new : PyClass) (key : string) : option PyVal :=
  cls_dict new !! key.

(** [dct.get(key, default)] *)
Definition dct_get (dct : gmap string PyVal) (key : string) (d : PyVal) : PyVal :=
  default d (dct !! key).

(** The state of the process that declarations change: the registry
    [CursedWindowClass.WINDOWS] and every queue made so far with its
    content. *)
Record Process : Type := mkProcess {
  WINDOWS : list PyClass;
  queues : list (list PyVal)
}.

(** [Queue()]: a new, empty queue. *)
Definition Queue (p : Process) : PyVal * Process :=
  (VQueue (length (queues p)),
   {| WINDOWS := WINDOWS p; queues := queues p ++ [[]] |}).

Definition BASE_CURSED_CLASSES : list string :=
  ["CursedWindowClass"; "CursedWindow"; "CursedMenu"].

(** [CursedWindowClass.__new__(cls, name, parents, dct)]: the class made
    and the process after the call. *)
Definition __new__ (p : Process) (name : string) (parents : list string)
    (dct : gmap string PyVal) : PyClass * Process :=
  let new := {| cls_name := name; cls_bases := parents; cls_dict := dct |} in
  if bool_decide (name ∈ BASE_CURSED_CLASSES) then (new, p)
  else
    let new := setattr new "WIDTH" (dct_get dct "WIDTH" (VInt 80)) in
    let new := setattr new "HEIGHT" (dct_get dct "HEIGHT" (VInt 24)) in
    let new := setattr new "WINDOW" VNone in
    let new := setattr new "APP" VNone in
    let new := setattr new "X" (dct_get dct "X" (VInt 0)) in
    let new := setattr new "Y" (dct_get dct "Y" (VInt 0)) in
    let new := setattr new "BORDERED" (dct_get dct "BORDERED" (VBool false)) in
    let '(q, p) := Queue p in
    let new := setattr new "EVENTS" q in
    let '(q, p) := Queue p in
    let new := setattr new "RESULTS" q in
    let '(q, p) := Queue p in
    let new := setattr new "KEY_EVENTS" q in
    let new := setattr new "SCROLL" (dct_get dct "SCROLL" (VBool false)) in
    let new := setattr new "WAIT" (dct_get dct "WAIT" (VBool true)) in
    let new := setattr new "MENU" (dct_get dct "MENU" VNone) in
    let new := setattr new "_KEYMAP" (VDict []) in
    let new := setattr new "_OPENED_MENU" VNone in
    (new, {| WINDOWS := WINDOWS p ++ [new]; queues := queues p |}).

(** A class statement of the host program, as the metaclass receives it. *)
Record Decl : Type := mkDecl {
  decl_name : string;
  decl_parents : list string;
  decl_dct : gmap string PyVal
}.

(** The process after one class statement, and after several in a row. *)
Definition declare (p : Process) (d : Decl) : Process :=
  snd (__new__ p (decl_name d) (decl_parents d) (decl_dct d)).

Definition declare_all (p : Process) (ds : list Decl) : Process :=
  fold_left declare ds p.

(** The attributes a declaration can override through its body. *)
Definition OVERRIDES : list string :=
  ["WIDTH"; "HEIGHT"; "X"; "Y"; "BORDERED"; "SCROLL"; "WAIT"; "MENU"].

(** A process that has declared nothing, and the body of a class
    statement that defines one method and none of the eight attributes. *)
Definition empty_process : Process := {| WINDOWS := []; queues := [] |}.

Definition update_only : gmap string PyVal := {[ "update" := VObj 1 ]}.

(** Every attribute [__new__] sets on a class it registers. *)
Definition SET_ATTRS : list string :=
  ["WIDTH"; "HEIGHT"; "WINDOW"; "APP"; "X"; "Y"; "BORDERED"; "EVENTS";
   "RESULTS"; "KEY_EVENTS"; "SCROLL"; "WAIT"; "MENU"; "_KEYMAP";
   "_OPENED_MENU"].

(** The [k]-th class of the registry holds the queues [q0 + 3k],
    [q0 + 3k + 1] and [q0 + 3k + 2], and the process has made no queue
    beyond those of the registered classes. *)
Definition queues_in_step (q0 : nat) (p : Process) : Prop :=
  length (queues p) = (q0 + 3 * length (WINDOWS p))%nat /\
  forall k cls, WINDOWS p !! k = Some cls ->
    getattr cls "EVENTS" = Some (VQueue (q0 + 3 * k)) /\
    getattr cls "RESULTS" = Some (VQueue (q0 + 3 * k + 1)) /\
    getattr cls "KEY_EVENTS" = Some (VQueue (q0 + 3 * k + 2)).

(** A body that sets the width and, in vain, the application. *)
Definition wide_body : gmap string PyVal :=
  {[ "WIDTH" := VStr "max"; "APP" := VObj 7 ]}.

End Meta.

(* ===================================================================== *)
(** ** Properties of [Result] *)
(* ===================================================================== *)

Import App.

Section ResultFacts.

(** Both ways of capturing leave the same three fields. *)
Lemma extract_exception_fields (r : Raised) (self : Result) :
  _extract_exception (exc_info_of r) self
  = {| exc_type := Some (type_of (exn r)); exc := Some (exn r); tb := exn_tb r |}.
Proof. reflexivity. Qed.

Lemma extract_thread_exception_fields (r : Raised) (self : Result) :
  _extract_thread_exception (Failed r) self
  = inl {| exc_type := Some (type_of (exn r)); exc := Some (exn r); tb := exn_tb r |}.
Proof. reflexivity. Qed.

Lemma raised_eta (r : Raised) : {| exn := exn r; exn_tb := exn_tb r |} = r.
Proof. by destruct r. Qed.

(** C6, as the code has it.  Once an exception of class [K] with text [M], truth
    value [b] and traceback [trace] has been captured, from the handler of
    [run] or from a failed task: when the instance is true in a boolean
    context ([b = true]), [err] returns it, [ok] is false and [unwrap]
    raises it with its class, text and traceback; when the instance is
    false ([b = false]), [err] returns [None], [ok] is true and [unwrap]
    returns without raising, although the exception is stored.  On a
    [Result] that captured nothing [unwrap] returns without raising. *)
Theorem Result_captured_err_ok_unwrap
    (K : PyType) (M : string) (b : bool) (trace : option Traceback)
    (self : Result) :
  let e := mkExc K M b in
  let r := mkRaised e trace in
  let holds (res : Result) :=
    exc res = Some e /\ type_of e = K /\ str_of e = M /\
    err res = (if b then Some e else None) /\
    ok res = negb b /\
    unwrap res = (if b then inr r else inl tt) /\ exn_tb r = trace in
  holds (_extract_exception (exc_info_of r) self) /\
  (exists res, _extract_thread_exception (Failed r) self = inl res /\ holds res) /\
  unwrap Result__init__ = inl tt /\
  (forall res, exc res = None -> unwrap res = inl tt).
Proof.
  intros e r holds.
  assert (Hgen : holds {| exc_type := Some K; exc := Some e; tb := trace |}).
  { unfold holds, err, ok, unwrap. cbn. by destruct b. }
  split; [exact Hgen |]. split; [eexists; split; [reflexivity | exact Hgen] |].
  split; [done |].
  intros res Hnone. unfold unwrap. by rewrite Hnone.
Qed.

(** C6 at the failing input: an exception of a class whose instances are
    false in a boolean context has been captured; [ok] is true, [err] is
    [None] and [unwrap] returns, while the rendering names the exception. *)
Lemma Result_captured_err_ok_unwrap_witness :
  let res := _extract_exception (exc_info_of (Falsy "boom")) Result__init__ in
  exc res = Some (exn (Falsy "boom")) /\
  err res = None /\
  ok res = true /\
  unwrap res = inl tt /\
  __repr__ res = "Result(Falsy, message=boom)".
Proof.
  intros res.
  destruct (proj1 (Result_captured_err_ok_unwrap (UserClass "Falsy" Exception)
                     "boom" false (Some [9%nat]) Result__init__))
    as (Hexc & _ & _ & Herr & Hok & Hun & _).
  split; [exact Hexc |]. split; [exact Herr |]. split; [exact Hok |].
  split; [exact Hun | reflexivity].
Defined.

(** C7.  Once a [KeyboardInterrupt] has been captured, [interrupted] is
    true and the rendering is ["Result(KeyboardInterrupt)"]; on a new
    [Result], [interrupted] is false and the rendering is
    ["Result(OKAY)"]. *)
Theorem Result_interrupted_repr
    (M : string) (b : bool) (trace : option Traceback) (self : Result) :
  let r := mkRaised (mkExc KeyboardInterrupt M b) trace in
  let holds (res : Result) :=
    interrupted res = true /\ __repr__ res = "Result(KeyboardInterrupt)" in
  holds (_extract_exception (exc_info_of r) self) /\
  (exists res, _extract_thread_exception (Failed r) self = inl res /\ holds res) /\
  interrupted Result__init__ = false /\
  __repr__ Result__init__ = "Result(OKAY)".
Proof.
  intros r holds. repeat split.
  eexists. split; [reflexivity | split; reflexivity].
Qed.

(** A class is never a proper subclass of itself, so the identity test of
    [interrupted] fails on every proper subclass. *)
Lemma interrupted_iff_identity (res : Result) :
  interrupted res = true <-> exc_type res = Some KeyboardInterrupt.
Proof. unfold interrupted. by rewrite bool_decide_eq_true. Qed.

(** C9, as the code has it.  For a captured exception whose class is a proper
    subclass of [KeyboardInterrupt], [interrupted] is false and the
    rendering is the general one, with the name of the class and the text
    of the exception; [ok] is false when the instance is true in a boolean
    context, and true when the instance is false in a boolean context. *)
Theorem Result_interrupt_subclass_not_interrupted
    (t : PyType) (M : string) (b : bool) (trace : option Traceback)
    (self : Result)
    (Hsub : issubclass t KeyboardInterrupt = true)
    (Hproper : t <> KeyboardInterrupt) :
  let r := mkRaised (mkExc t M b) trace in
  let holds (res : Result) :=
    interrupted res = false /\
    __repr__ res = "Result(" +:+ __name__ t +:+ ", message=" +:+ M +:+ ")" /\
    ok res = negb b in
  holds (_extract_exception (exc_info_of r) self) /\
  (exists res, _extract_thread_exception (Failed r) self = inl res /\ holds res).
Proof.
  intros r holds.
  assert (Hgen : holds {| exc_type := Some t; exc := Some (mkExc t M b); tb := trace |}).
  { unfold holds, __repr__, interrupted. cbn.
    rewrite bool_decide_eq_false_2 by congruence. done. }
  split; [exact Hgen |].
  eexists. split; [reflexivity | exact Hgen].
Qed.

(** C9 at the failing input: the class derives from [KeyboardInterrupt]
    and its instances are false in a boolean context; [ok] is true. *)
Lemma Result_interrupt_subclass_witness :
  let t := UserClass "FalsyInterrupt" KeyboardInterrupt in
  let res := _extract_exception (exc_info_of (FalsyInterrupt "stop"))
               Result__init__ in
  issubclass t KeyboardInterrupt = true /\
  interrupted res = false /\
  __repr__ res = "Result(FalsyInterrupt, message=stop)" /\
  ok res = true.
Proof.
  intros t res.
  split; [reflexivity |].
  exact (proj1 (Result_interrupt_subclass_not_interrupted t "stop" false (Some [9%nat])
                  Result__init__ eq_refl ltac:(discriminate))).
Defined.

End ResultFacts.

(* ===================================================================== *)
(** ** Properties of the input-dispatch loop *)
(* ===================================================================== *)

Section InputLoopFacts.

Variable sched : nat -> World -> World.
Variable tty : nat -> Z.

Lemma chars_read_app (tr1 tr2 : list Call) :
  chars_read (tr1 ++ tr2) = chars_read tr1 ++ chars_read tr2.
Proof. apply flat_map_app. Qed.

Lemma keys_read_app (tr1 tr2 : list Call) :
  keys_read (tr1 ++ tr2) = keys_read tr1 ++ keys_read tr2.
Proof. unfold keys_read. by rewrite chars_read_app, filter_app. Qed.

Lemma keys_put_app (i : nat) (tr1 tr2 : list Call) :
  keys_put i (tr1 ++ tr2) = keys_put i tr1 ++ keys_put i tr2.
Proof. apply flat_map_app. Qed.

Lemma keys_put_puts (i : nat) (c : Z) (n : nat) :
  keys_put i (puts c n) = if bool_decide (i < n)%nat then [c] else [].
Proof.
  unfold puts. induction n as [|n IH]; [done |].
  rewrite seq_S, map_app, keys_put_app, IH. cbn.
  repeat case_bool_decide; try lia; try done.
Qed.

Lemma chars_read_puts (c : Z) (l : list nat) :
  chars_read (map (fun i => put i c) l) = [].
Proof. induction l; [done | by cbn]. Qed.

Lemma In_puts (i : nat) (key c : Z) (n : nat) :
  In (put i key) (puts c n) -> key = c.
Proof.
  unfold puts. rewrite in_map_iff. intros (j & Heq & _). congruence.
Qed.

Lemma poll_log_eq (k : nat) (w : World) :
  snd (fst (poll sched tty k w)) = poll_log sched tty k w.
Proof.
  unfold poll, poll_log, broadcast.
  destruct (window (app (sched k w))); [| done].
  destruct (tty k =? -1); [done |].
  by destruct (windows (app (sched k w))).
Qed.

Lemma poll_running (k : nat) (w : World) :
  running (app (fst (fst (poll sched tty k w)))) = running (app (sched k w)).
Proof.
  unfold poll, broadcast.
  destruct (window (app (sched k w))); [| done].
  destruct (tty k =? -1); [done |].
  by destruct (windows (app (sched k w))).
Qed.

Lemma poll_not_break (k : nat) (w : World) :
  snd (poll sched tty k w) <> Break.
Proof.
  unfold poll, broadcast.
  destruct (window (app (sched k w))); [| done].
  destruct (tty k =? -1); [done |].
  by destruct (windows (app (sched k w))).
Qed.

Lemma poll_window_count (k : nat) (w : World) :
  window_count (fst (fst (poll sched tty k w))) = window_count (sched k w).
Proof.
  unfold poll, broadcast, window_count.
  destruct (window (app (sched k w))); [| done].
  destruct (tty k =? -1); [done |].
  destruct (windows (app (sched k w))) eqn:Hws; cbn; [| by rewrite Hws].
  by rewrite length_map.
Qed.

Lemma stop_all_window_count (w : World) :
  window_count (stop_all w) = window_count w.
Proof.
  unfold stop_all, window_count. cbn.
  destruct (windows (app w)); [| done]. cbn. by rewrite length_map.
Qed.

(** The log of an iteration is empty, or that of a poll. *)
Lemma iteration_log (k : nat) (w : World) :
  snd (fst (iteration sched tty k w)) = [] \/
  exists v, window_count v = window_count w /\
            snd (fst (iteration sched tty k w)) = poll_log sched tty k v.
Proof.
  unfold iteration.
  destruct (windows (app w)) as [ws|] eqn:Hws; [| by left].
  destruct (scan (greenlets w) ws); try by left.
  - right. exists (stop_all w). split; [apply stop_all_window_count | apply poll_log_eq].
  - right. exists w. split; [done | apply poll_log_eq].
Qed.

Lemma iteration_window_count (k : nat) (w : World) :
  (forall j v, window_count (sched j v) = window_count v) ->
  window_count (fst (fst (iteration sched tty k w))) = window_count w.
Proof.
  intros Hsched. unfold iteration.
  destruct (windows (app w)) as [ws|] eqn:Hws; [| done].
  destruct (scan (greenlets w) ws); try done.
  - by rewrite poll_window_count, Hsched, stop_all_window_count.
  - by rewrite poll_window_count, Hsched.
Qed.

(** In the log of a poll every window gets the key read, once, and [-1] is
    never put. *)
Lemma poll_log_keys (k : nat) (v : World) (n i : nat) :
  window_count (sched k v) = Some n -> (i < n)%nat ->
  keys_put i (poll_log sched tty k v) = keys_read (poll_log sched tty k v).
Proof.
  intros Hn Hi. unfold poll_log, window_count in *.
  destruct (window (app (sched k v))); [| done].
  rewrite keys_put_app, keys_read_app.
  destruct (tty k =? -1) eqn:Hc.
  - apply Z.eqb_eq in Hc. rewrite Hc. reflexivity.
  - apply Z.eqb_neq in Hc.
    destruct (windows (app (sched k v))) as [ws1|]; [| done].
    injection Hn as Hn. rewrite Hn, keys_put_puts.
    rewrite bool_decide_eq_true_2 by done.
    unfold keys_read, puts. rewrite chars_read_puts. cbn.
    by rewrite decide_True.
Qed.

Lemma poll_log_no_sentinel (k : nat) (v : World) (i : nat) :
  ~ In (put i (-1)) (poll_log sched tty k v).
Proof.
  unfold poll_log.
  destruct (window (app (sched k v))); [| by intros [Heq | []]].
  intros [Heq | [Heq | Hin]]; try discriminate.
  destruct (tty k =? -1) eqn:Hc; [done |].
  apply Z.eqb_neq in Hc.
  destruct (windows (app (sched k v))); [| done].
  apply In_puts in Hin. congruence.
Qed.

Lemma iteration_log_keys (k : nat) (w : World) (n i : nat) :
  (forall j v, window_count (sched j v) = window_count v) ->
  window_count w = Some n -> (i < n)%nat ->
  keys_put i (snd (fst (iteration sched tty k w)))
  = keys_read (snd (fst (iteration sched tty k w))).
Proof.
  intros Hsched Hn Hi.
  destruct (iteration_log k w) as [-> | (v & Hv & ->)]; [done |].
  apply poll_log_keys with n; [| done]. by rewrite Hsched, Hv.
Qed.

Lemma iteration_log_no_sentinel (k : nat) (w : World) (i : nat) :
  ~ In (put i (-1)) (snd (fst (iteration sched tty k w))).
Proof.
  destruct (iteration_log k w) as [-> | (v & _ & ->)]; [by intros [] |].
  apply poll_log_no_sentinel.
Qed.

(** Unfolding the loop by one iteration. *)
Lemma input_loop_step (fuel k : nat) (w : World) :
  running (app w) = true ->
  _input_loop sched tty (S fuel) k w =
    match iteration sched tty k w with
    | (w1, tr, Next) =>
        let '(w2, tr', st) := _input_loop sched tty fuel (S k) w1 in
        (w2, tr ++ tr', st)
    | (w1, tr, Break) => (w1, tr, Finished)
    | (w1, tr, Throw r) => (w1, tr, Crashed r)
    end.
Proof. intros Hrun. cbn. by rewrite Hrun. Qed.

Lemma input_loop_stopped (fuel k : nat) (w : World) :
  running (app w) = false ->
  _input_loop sched tty fuel k w = (w, [], Finished).
Proof. intros Hrun. destruct fuel; cbn; by rewrite Hrun. Qed.

Lemma input_loop_keys (n : nat) :
  (forall j v, window_count (sched j v) = window_count v) ->
  forall (fuel k : nat) (w : World),
    window_count w = Some n ->
    forall i, (i < n)%nat ->
      keys_put i (snd (fst (_input_loop sched tty fuel k w)))
      = keys_read (snd (fst (_input_loop sched tty fuel k w))).
Proof.
  intros Hsched fuel.
  induction fuel as [|fuel IH]; intros k w Hn i Hi.
  { cbn. by destruct (running (app w)). }
  destruct (running (app w)) eqn:Hrun;
    [rewrite input_loop_step by done | by rewrite input_loop_stopped].
  pose proof (iteration_log_keys k w n i Hsched Hn Hi) as Hkeys.
  pose proof (iteration_window_count k w Hsched) as Hcnt.
  destruct (iteration sched tty k w) as [[w1 tr1] e]. cbn [fst snd] in Hkeys, Hcnt.
  destruct e; [| done | done].
  rewrite Hn in Hcnt. specialize (IH (S k) w1 Hcnt i Hi).
  destruct (_input_loop sched tty fuel (S k) w1) as [[w2 tr2] st].
  cbn [fst snd] in *.
  by rewrite keys_put_app, keys_read_app, Hkeys, IH.
Qed.

Lemma input_loop_no_sentinel (fuel k : nat) (w : World) (i : nat) :
  ~ In (put i (-1)) (snd (fst (_input_loop sched tty fuel k w))).
Proof.
  revert k w. induction fuel as [|fuel IH]; intros k w.
  { cbn. destruct (running (app w)); cbn; tauto. }
  destruct (running (app w)) eqn:Hrun;
    [rewrite input_loop_step by done
    | rewrite input_loop_stopped by done; cbn; tauto].
  pose proof (iteration_log_no_sentinel k w i) as Hit.
  destruct (iteration sched tty k w) as [[w1 tr1] e]. cbn [fst snd] in Hit.
  destruct e; [| done | done].
  specialize (IH (S k) w1).
  destruct (_input_loop sched tty fuel (S k) w1) as [[w2 tr2] st].
  cbn [fst snd] in *.
  rewrite in_app_iff. tauto.
Qed.

Lemma broadcast_queue (c : Z) (v : World) (i : nat) :
  match queue i v with
  | Some q => queue i (fst (fst (broadcast c v))) = Some (q ++ [c])
  | None => True
  end.
Proof.
  unfold queue, broadcast.
  destruct (windows (app v)) as [ws|] eqn:Hws; cbn; [| done].
  rewrite list_lookup_fmap.
  by destruct (ws !! i).
Qed.

(** What a poll that gets to read a key other than [-1] does to the
    queues: the key goes to the end of the queue of every window that is
    in the list when the yield is over. *)
Lemma poll_appends (k i : nat) (v : World) (win : CursesWin) :
  window (app (sched k v)) = Some win ->
  tty k <> -1 ->
  queue i (fst (fst (poll sched tty k v)))
  = (fun q => q ++ [tty k]) <$> queue i (sched k v).
Proof.
  intros Hwin Hc. unfold poll. rewrite Hwin.
  apply Z.eqb_neq in Hc. rewrite Hc.
  unfold broadcast, queue.
  destruct (windows (app (sched k v))) as [ws1|] eqn:Hws; cbn; [| by rewrite Hws].
  rewrite list_lookup_fmap. by destruct (ws1 !! i).
Qed.

Section QueuesLeftAlone.

Hypothesis Hq : forall j v i, queue i (sched j v) = queue i v.

Lemma poll_queue (k i : nat) (w : World) (q : list Z) :
  queue i w = Some q ->
  queue i (fst (fst (poll sched tty k w)))
  = Some (q ++ keys_read (snd (fst (poll sched tty k w)))).
Proof.
  intros Hqw. rewrite <- (Hq k) in Hqw. unfold poll.
  destruct (window (app (sched k w))) as [win|];
    [| cbn; by rewrite app_nil_r].
  destruct (tty k =? -1) eqn:Hc.
  - apply Z.eqb_eq in Hc. rewrite Hc. cbn. by rewrite app_nil_r.
  - apply Z.eqb_neq in Hc.
    pose proof (broadcast_queue (tty k) (sched k w) i) as Hb. rewrite Hqw in Hb.
    assert (Hlog : exists n, snd (fst (broadcast (tty k) (sched k w))) = puts (tty k) n).
    { unfold broadcast.
      destruct (windows (app (sched k w))); [by eexists | by exists 0%nat]. }
    destruct Hlog as (n & Hlog).
    destruct (broadcast (tty k) (sched k w)) as [[w2 tr2] e]. cbn [fst snd] in *.
    rewrite Hb, Hlog. f_equal. f_equal.
    unfold keys_read. rewrite chars_read_app. unfold puts.
    rewrite chars_read_puts. cbn. by rewrite decide_True.
Qed.

Lemma stop_all_queue (i : nat) (w : World) : queue i (stop_all w) = queue i w.
Proof.
  unfold queue, stop_all. cbn.
  destruct (windows (app w)) as [ws|]; [| done]. cbn.
  rewrite list_lookup_fmap. by destruct (ws !! i).
Qed.

Lemma iteration_queue (k i : nat) (w : World) (q : list Z) :
  queue i w = Some q ->
  queue i (fst (fst (iteration sched tty k w)))
  = Some (q ++ keys_read (snd (fst (iteration sched tty k w)))).
Proof.
  intros Hqw. unfold iteration.
  destruct (windows (app w)) as [ws|] eqn:Hws;
    [| cbn; by rewrite app_nil_r].
  destruct (scan (greenlets w) ws).
  - apply poll_queue. by rewrite stop_all_queue.
  - by apply poll_queue.
  - cbn [fst snd]. rewrite app_nil_r. unfold queue in *. cbn. by rewrite Hws in *.
  - cbn. by rewrite app_nil_r.
Qed.

Lemma input_loop_queue (fuel : nat) :
  forall (k i : nat) (w : World) (q : list Z),
    queue i w = Some q ->
    queue i (fst (fst (_input_loop sched tty fuel k w)))
    = Some (q ++ keys_read (snd (fst (_input_loop sched tty fuel k w)))).
Proof.
  induction fuel as [|fuel IH]; intros k i w q Hqw.
  { cbn. destruct (running (app w)); cbn; by rewrite app_nil_r. }
  destruct (running (app w)) eqn:Hrun;
    [rewrite input_loop_step by done
    | rewrite input_loop_stopped by done; cbn; by rewrite app_nil_r].
  pose proof (iteration_queue k i w q Hqw) as Hit.
  destruct (iteration sched tty k w) as [[w1 tr1] e]. cbn [fst snd] in Hit.
  destruct e; [| done | done].
  specialize (IH (S k) i w1 _ Hit).
  destruct (_input_loop sched tty fuel (S k) w1) as [[w2 tr2] st].
  cbn [fst snd] in *. by rewrite IH, keys_read_app, app_assoc.
Qed.

End QueuesLeftAlone.

(** C5, as the code has it.  Whenever an iteration gets to read a
    character other than [-1], it puts it at the end of the queue of every
    window that is in the list when the yield is over.  With a window list
    that keeps its [n] windows, the keys put in the queue of each window by
    any number of iterations are the characters read other than [-1], each
    once and in the order read, the same for all windows; if the other
    tasks leave the queues alone meanwhile, each queue then holds what it
    held followed by those keys.  [-1] is never put in a queue. *)
Theorem input_loop_broadcasts_in_order (n fuel k : nat) (w : World)
    (Hsched : forall j v, window_count (sched j v) = window_count v)
    (Hn : window_count w = Some n) :
  let tr := snd (fst (_input_loop sched tty fuel k w)) in
  let w' := fst (fst (_input_loop sched tty fuel k w)) in
  (forall j v i win,
     window (app (sched j v)) = Some win -> tty j <> -1 ->
     queue i (fst (fst (poll sched tty j v)))
     = (fun q => q ++ [tty j]) <$> queue i (sched j v)) /\
  (forall i, (i < n)%nat ->
     keys_put i tr = filter (fun key => key <> -1) (chars_read tr)) /\
  ((forall j v i, queue i (sched j v) = queue i v) ->
   forall i q, queue i w = Some q ->
     queue i w' = Some (q ++ filter (fun key => key <> -1) (chars_read tr))) /\
  (forall i, ~ In (put i (-1)) tr).
Proof.
  intros tr w'. split; [| split; [| split]].
  - intros j v i win. apply poll_appends.
  - intros i Hi. by apply input_loop_keys with n.
  - intros Hq i q Hqw. by apply input_loop_queue.
  - intros i. apply input_loop_no_sentinel.
Qed.

(** C1, as the code has it.  When the scan of an iteration entered with the
    controller's [running] true comes on a window whose task has an
    exception, every window's [RUNNING] and the controller's [running] are
    set to false; the iteration then goes on: it yields and, the
    controller holding its sub-window, reads one character and, unless that
    is [-1], puts it at the end of every window's queue.  If the flag is
    still false when the yield is over, the loop ends with this iteration,
    at the next test of the flag. *)
Theorem input_loop_failure_iteration
    (fuel k : nat) (w : World) (ws : list CursedWindow) (win : CursesWin)
    (Hrunning : running (app w) = true)
    (Hws : windows (app w) = Some ws)
    (Hfail : scan (greenlets w) ws = Failure)
    (Hwin : window (app (sched k (stop_all w))) = Some win) :
  let w0 := stop_all w in
  let w1 := sched k w0 in
  let c := tty k in
  windows (app w0) = Some (map (set_RUNNING false) ws) /\
  Forall (fun cw => RUNNING cw = false) (map (set_RUNNING false) ws) /\
  running (app w0) = false /\
  iteration sched tty k w =
    (if c =? -1 then (w1, [sleep 0; getch c], Next)
     else match windows (app w1) with
          | Some ws1 =>
              (with_app (set_windows (Some (map (KEY_EVENTS_put c) ws1))) w1,
               [sleep 0; getch c] ++ puts c (length ws1),
               Next)
          | None =>
              (w1, [sleep 0; getch c],
               Throw (TypeError "'NoneType' object is not iterable"))
          end) /\
  (if c =? -1 then True
   else forall i, queue i (fst (fst (iteration sched tty k w)))
                  = (fun q => q ++ [c]) <$> queue i w1) /\
  (if running (app w1) then True
   else _input_loop sched tty (S fuel) k w =
          let '(w2, tr, e) := iteration sched tty k w in
          (w2, tr, match e with Throw r => Crashed r | _ => Finished end)).
Proof.
  intros w0 w1 c.
  assert (Hit : iteration sched tty k w = poll sched tty k w0).
  { unfold iteration. by rewrite Hws, Hfail. }
  split; [unfold w0, stop_all; cbn; by rewrite Hws |].
  split.
  { apply Forall_forall. intros cw Hin.
    by apply list_elem_of_fmap in Hin as (cw' & -> & _). }
  split; [done |]. split; [| split].
  - rewrite Hit. unfold poll.
    change (sched k w0) with w1. change (tty k) with c.
    change (window (app w1)) with (window (app (sched k (stop_all w)))).
    rewrite Hwin.
    destruct (c =? -1); [done |]. unfold broadcast.
    by destruct (windows (app w1)).
  - destruct (c =? -1) eqn:Hc; [done |]. intros i. rewrite Hit.
    apply Z.eqb_neq in Hc. by apply poll_appends with win.
  - destruct (running (app w1)) eqn:Hflag; [done |].
    rewrite input_loop_step by done.
    pose proof (poll_running k w0) as Hpr.
    pose proof (poll_not_break k w0) as Hnb.
    rewrite <- Hit in Hpr, Hnb.
    destruct (iteration sched tty k w) as [[w2 tr] e]. cbn [fst snd] in Hpr, Hnb.
    destruct e; [| done | done].
    rewrite input_loop_stopped by (fold w0 w1 in Hpr; congruence).
    by rewrite app_nil_r.
Qed.

End InputLoopFacts.

(** C1, as the claim has it, fails: with the controller holding its
    sub-window, one window whose task has failed and a key waiting on the
    terminal, the iteration that finds the failure reads the key and puts
    it in the window's queue before the loop ends. *)
Lemma input_loop_failure_still_reads :
  let w := one_failed_world in
  running (app w) = true /\
  window (app w) = Some Subwin /\
  scan (greenlets w) (default [] (windows (app w))) = Failure /\
  _input_loop quiet (typed [97]) 1 0 w
  = (with_app (set_windows (Some [KEY_EVENTS_put 97 (set_RUNNING false
                                      (set_THREAD (Some 0%nat) idle_window))]))
       (stop_all w),
     [sleep 0; getch 97; put 0 97],
     Finished) /\
  In (getch 97) (snd (fst (iteration quiet (typed [97]) 0 w))) /\
  queue 0 (fst (fst (iteration quiet (typed [97]) 0 w))) = Some [97].
Proof. cbn. repeat split; auto. Qed.

Lemma input_loop_failure_iteration_witness :
  let w := one_failed_world in
  let ws := [set_THREAD (Some 0%nat) idle_window] in
  running (app w) = true /\
  windows (app w) = Some ws /\
  scan (greenlets w) ws = Failure /\
  window (app (quiet 0%nat (stop_all w))) = Some Subwin /\
  iteration quiet (typed [97]) 0 w
  = (with_app (set_windows (Some [KEY_EVENTS_put 97 (set_RUNNING false
                                      (set_THREAD (Some 0%nat) idle_window))]))
       (stop_all w),
     [sleep 0; getch 97; put 0 97],
     Next).
Proof.
  intros w ws.
  split; [reflexivity |]. split; [reflexivity |]. split; [reflexivity |].
  split; [reflexivity |].
  exact (proj1 (proj2 (proj2 (proj2
    (input_loop_failure_iteration quiet (typed [97]) 0 0 w ws Subwin
       eq_refl eq_refl eq_refl eq_refl))))).
Defined.

(** C5, as the claim has it, fails: a window that joins the registry
    during a yield gets the characters read from then on only, so the
    windows do not all receive the same sequence. *)
Lemma input_loop_latecomer_misses_keys :
  let run := _input_loop latecomer (typed [97; 98]) 2 0 two_windows_world in
  chars_read (snd (fst run)) = [97; 98] /\
  window_count (fst (fst run)) = Some 3%nat /\
  keys_put 0 (snd (fst run)) = [97; 98] /\
  keys_put 2 (snd (fst run)) = [98] /\
  queue 0 (fst (fst run)) = Some [97; 98] /\
  queue 2 (fst (fst run)) = Some [98].
Proof. cbn. repeat split. Qed.

Lemma input_loop_broadcasts_in_order_witness :
  let run := _input_loop quiet (typed [97; -1; 98]) 4 0 two_windows_world in
  window_count two_windows_world = Some 2%nat /\
  keys_put 0 (snd (fst run)) = [97; 98] /\
  keys_put 1 (snd (fst run)) = [97; 98] /\
  queue 1 (fst (fst run)) = Some [97; 98].
Proof.
  intros run.
  pose proof (input_loop_broadcasts_in_order quiet (typed [97; -1; 98]) 2 4 0
                two_windows_world (fun _ _ => eq_refl) eq_refl)
    as (_ & Hkeys & Hqueue & _).
  split; [reflexivity |].
  split; [exact (Hkeys 0%nat ltac:(lia)) |].
  split; [exact (Hkeys 1%nat ltac:(lia)) |].
  exact (Hqueue (fun _ _ _ => eq_refl) 1%nat [] eq_refl).
Defined.

(* ===================================================================== *)
(** ** Properties of [run] *)
(* ===================================================================== *)

(** *** What every statement of [run] preserves *)

Section Along.

Variable Q : CursedApp -> CursedApp -> Prop.
Hypothesis Q_refl : forall a, Q a a.
Hypothesis Q_trans : forall a b c, Q a b -> Q b c -> Q a c.
Hypothesis Q_threads : forall a l, Q a (set_threads (threads a ++ l) a).
Hypothesis Q_windows : forall a ws, Q a (set_windows ws a).
Hypothesis Q_maxyx : forall a yx, Q a (set_maxyx yx a).
Hypothesis Q_window : forall a s, Q a (set_window s a).
Hypothesis Q_running : forall a b, Q a (set_running b a).

Variable env : Env.

Lemma along_ret {A : Type} (a : A) : along Q (ret a).
Proof. intros s. apply Q_refl. Qed.

Lemma along_raise {A : Type} (r : Raised) : along Q (raise (A := A) r).
Proof. intros s. apply Q_refl. Qed.

Lemma along_lift {A : Type} (x : A + Raised) : along Q (lift x).
Proof. intros s. apply Q_refl. Qed.

Lemma along_get : along Q get.
Proof. intros s. apply Q_refl. Qed.

Lemma along_call (c : Call) : along Q (call env c).
Proof. intros s. apply Q_refl. Qed.

Lemma along_modify (f : World -> World) :
  (forall w, Q (app w) (app (f w))) -> along Q (modify f).
Proof. intros Hf s. apply Hf. Qed.

Lemma along_bind {A B : Type} (m : M A) (f : A -> M B) :
  along Q m -> (forall a, along Q (f a)) -> along Q (m ≫= f).
Proof.
  intros Hm Hf s. specialize (Hm s).
  unfold mbind, M_bind, bind.
  destruct (m s) as [s1 [a | r]]; [| done].
  eapply Q_trans; [exact Hm | apply Hf].
Qed.

Lemma along_try_except {A : Type} (body : M A) (handler : Raised -> M A) :
  along Q body -> (forall r, along Q (handler r)) ->
  along Q (try_except body handler).
Proof.
  intros Hb Hh s. specialize (Hb s). unfold try_except.
  destruct (body s) as [s1 [a | r]]; [done |].
  eapply Q_trans; [exact Hb | apply Hh].
Qed.

Lemma along_finally {A : Type} (body : M A) (cleanup : M unit) :
  along Q body -> along Q cleanup -> along Q (finally body cleanup).
Proof.
  intros Hb Hc s. specialize (Hb s). unfold finally.
  destruct (body s) as [s1 res]. specialize (Hc s1).
  destruct (cleanup s1) as [s2 [u | r]]; eapply Q_trans; eauto.
Qed.

Lemma along_gevent_spawn : along Q (gevent_spawn env).
Proof.
  unfold gevent_spawn.
  apply along_bind; [apply along_get | intros w].
  apply along_bind; [apply along_call | intros _].
  apply along_bind; [| intros _; apply along_ret].
  apply along_modify. intros v. apply Q_refl.
Qed.

Lemma along_spawn_windows (i n : nat) : along Q (spawn_windows env i n).
Proof.
  revert i. induction n as [|n IH]; intros i; [apply along_ret |].
  cbn [spawn_windows].
  apply along_bind; [apply along_gevent_spawn | intros thread].
  apply along_bind; [| intros _; apply IH].
  apply along_modify. intros w. cbn.
  eapply Q_trans; [apply Q_windows | apply (Q_threads (set_windows _ _))].
Qed.

Lemma along_run_windows : along Q (_run_windows env).
Proof.
  unfold _run_windows.
  apply along_bind; [apply along_get | intros w].
  destruct (MAX_WIDTH (app w)); [| apply along_raise].
  destruct (MAX_HEIGHT (app w)); [| apply along_raise].
  apply along_bind; [apply along_call | intros _].
  apply along_bind; [| intros _; apply along_spawn_windows].
  apply along_modify. intros v. apply Q_windows.
Qed.

Lemma along_gevent_joinall : along Q (gevent_joinall env).
Proof.
  unfold gevent_joinall.
  apply along_bind; [apply along_get | intros w].
  apply along_bind; [| intros _; apply along_call].
  apply along_modify. intros v. cbn.
  eapply Q_trans; [apply Q_windows | apply Q_running].
Qed.

Lemma along_run_except (result : Result) (r : Raised) :
  along Q (run_except result r).
Proof.
  unfold run_except.
  destruct (isinstance (exn r) KeyboardInterrupt); [apply along_ret |].
  destruct (isinstance (exn r) Exception); [apply along_ret | apply along_raise].
Qed.

Lemma along_run_finally : along Q (run_finally env).
Proof.
  unfold run_finally.
  apply along_bind; [apply along_get | intros w].
  destruct (scr (app w)); [| apply along_ret].
  repeat (apply along_bind; [apply along_call | intros _]).
  apply along_call.
Qed.

Lemma along_run_with_screen (result : Result) :
  along Q (run_with_screen env result).
Proof.
  unfold run_with_screen.
  repeat first
    [ apply along_bind; [first [ apply along_call | apply along_run_windows
                               | apply along_gevent_spawn | apply along_gevent_joinall
                               | apply along_get
                               | apply along_modify; intros v; cbn;
                                 first [apply Q_maxyx | apply Q_window
                                       | apply (Q_threads (app v))] ]
                        | intros ?] ].
  apply along_lift.
Qed.

End Along.

(** *** The clean-up of [run] *)

Section RunCleanup.

Variable env : Env.

Lemma run_body_eq (result : Result) (s : World * list Call) :
  run_body env result s =
    match raises env initscr with
    | Some r => ((fst s, snd s ++ [initscr]), inr r)
    | None =>
        run_with_screen env result
          (with_app (set_scr (Some Stdscr)) (fst s), snd s ++ [initscr])
    end.
Proof.
  unfold run_body, mbind, M_bind, bind, call, modify. cbn [fst snd].
  destruct (raises env initscr); reflexivity.
Qed.

Lemma run_except_state (result : Result) (r : Raised) (s : World * list Call) :
  fst (run_except result r s) = s.
Proof.
  unfold run_except.
  destruct (isinstance (exn r) KeyboardInterrupt); [done |].
  by destruct (isinstance (exn r) Exception).
Qed.

(** Once [self.scr] is set, nothing in the [try] body changes it. *)
Lemma run_with_screen_scr (result : Result) :
  along (fun a b => scr a = scr b) (run_with_screen env result).
Proof. apply along_run_with_screen; intros; done || congruence. Qed.

(** The state in which the [try] statement leaves for the [finally]
    clause. *)
Lemma try_part_state (w : World) :
  let s1 := fst (try_except (run_body env Result__init__)
                            (run_except Result__init__) (w, [])) in
  match raises env initscr with
  | Some _ => s1 = (w, [initscr])
  | None => scr (app (fst s1)) = Some Stdscr
  end.
Proof.
  unfold try_except. rewrite run_body_eq. cbn [fst snd app].
  destruct (raises env initscr) as [r|] eqn:Hinit.
  - apply run_except_state.
  - pose proof (run_with_screen_scr Result__init__
                  (with_app (set_scr (Some Stdscr)) w, [initscr])) as Hscr.
    cbn [fst snd] in Hscr.
    destruct (run_with_screen env Result__init__ _) as [s' [a | r]];
      cbn [fst snd] in *; [done |].
    by rewrite run_except_state.
Qed.

Lemma run_finally_none (s1 : World * list Call) :
  scr (app (fst s1)) = None -> run_finally env s1 = (s1, inl tt).
Proof.
  intros Hscr. unfold run_finally, mbind, M_bind, bind, get. cbn [fst snd].
  by rewrite Hscr.
Qed.

Lemma run_finally_some (s1 : World * list Call) (sc : CursesWin) :
  scr (app (fst s1)) = Some sc ->
  exists x,
    run_finally env s1
    = ((fst s1, snd s1 ++ attempted env (cleanup_calls sc)), x) /\
    match x with
    | inl _ => attempted env (cleanup_calls sc) = cleanup_calls sc
    | inr r => exists c, In c (cleanup_calls sc) /\ raises env c = Some r
    end.
Proof.
  intros Hscr. unfold run_finally, mbind, M_bind, bind, get. cbn [fst snd].
  rewrite Hscr. unfold call. cbn [fst snd attempted cleanup_calls].
  destruct (raises env (keypad sc 0)) eqn:H1;
    [eexists; split; [reflexivity | exists (keypad sc 0); split; [cbn; tauto | done]] |].
  destruct (raises env echo) eqn:H2;
    [eexists; split; [by rewrite <- !app_assoc | exists echo; split; [cbn; tauto | done]] |].
  destruct (raises env nocbreak) eqn:H3;
    [eexists; split; [by rewrite <- !app_assoc | exists nocbreak; split; [cbn; tauto | done]] |].
  destruct (raises env endwin) eqn:H4;
    [eexists; split; [by rewrite <- !app_assoc | exists endwin; split; [cbn; tauto | done]] |].
  eexists; split; [by rewrite <- !app_assoc | done].
Qed.

(** C2, as the code has it.  The [finally] clause makes its four calls,
    after every other call of the run, whenever [curses.initscr()] has
    returned in this call, or the controller holds a screen from an earlier
    call, whatever any later statement raises; when [run] returns a
    [Result] none of the four calls has raised and all four have been made.
    When [curses.initscr()] raises on a controller that holds no screen,
    it is the only call of the run. *)
Theorem run_cleanup_needs_screen (w : World) :
  let '(w', log, res) := run env w in
  match scr (app w), raises env initscr with
  | None, Some _ => log = [initscr] /\ scr (app w') = None
  | _, _ =>
      exists s before,
        scr (app w') = Some s /\
        log = before ++ attempted env (cleanup_calls s) /\
        match res with
        | inl _ => attempted env (cleanup_calls s) = cleanup_calls s
        | inr _ => True
        end
  end.
Proof.
  unfold run, finally.
  pose proof (try_part_state w) as Htry. cbn zeta in Htry.
  destruct (try_except _ _ (w, [])) as [s1 res1]. cbn [fst] in Htry.
  assert (Hdone : forall sc (x : unit + Raised),
    scr (app (fst s1)) = Some sc ->
    match x with
    | inl _ => attempted env (cleanup_calls sc) = cleanup_calls sc
    | inr r => exists c, In c (cleanup_calls sc) /\ raises env c = Some r
    end ->
    let '(w', log, res) :=
      match (fst s1, snd s1 ++ attempted env (cleanup_calls sc), x) with
      | (s2, inl _) => (s2, res1)
      | (s2, inr r) => (s2, inr r)
      end in
    exists s before,
      scr (app w') = Some s /\
      log = before ++ attempted env (cleanup_calls s) /\
      match res with
      | inl _ => attempted env (cleanup_calls s) = cleanup_calls s
      | inr _ => True
      end).
  { intros sc x Hsc Hx.
    destruct x; exists sc, (snd s1); (split; [done |]); (split; [done |]);
      [by destruct res1 | done]. }
  destruct (raises env initscr) as [r|] eqn:Hr.
  - subst s1. cbn [fst snd] in *.
    destruct (scr (app w)) as [sc|] eqn:Hw.
    + destruct (run_finally_some (w, [initscr]) sc Hw) as (x & -> & Hx).
      by apply Hdone.
    + by rewrite run_finally_none.
  - destruct (run_finally_some s1 Stdscr Htry) as (x & -> & Hx).
    specialize (Hdone Stdscr x Htry Hx).
    by destruct (scr (app w)).
Qed.

End RunCleanup.

(** C2, as the claim has it, fails: on a new controller, when
    [curses.initscr()] raises, [run] returns the captured error having made
    no call but that one, so none of the four calls of the clean-up. *)
Lemma run_without_terminal_skips_cleanup :
  run no_terminal new_world
  = (new_world, [initscr],
     inl (outcome_of (curses_error "setupterm: could not find terminal"))) /\
  ~ In endwin (snd (fst (run no_terminal new_world))) /\
  ~ In echo (snd (fst (run no_terminal new_world))).
Proof.
  split; [reflexivity |].
  split; cbn; intros [Heq | []]; discriminate.
Qed.

(** *** The inspection of the task handles *)

Section InspectFacts.

Lemma last_seen_cons (gs : list Greenlet) (t : nat) (ts : list nat) :
  last_seen gs (t :: ts) =
    match last_seen gs ts with
    | Some r => Some r
    | None => match greenlet gs t with
              | Failed r => if bool_of (exn r) then Some r else None
              | _ => None
              end
    end.
Proof.
  unfold last_seen. cbn [omap list_omap].
  destruct (greenlet gs t) as [| |r]; try by destruct (last _).
  destruct (bool_of (exn r)); [by rewrite last_cons | by destruct (last _)].
Qed.

(** The loop of lines 157-159 never raises, and comes to the fields of the
    last handle whose exception is true in a boolean context, or to the
    [Result] as it was when there is no such handle. *)
Lemma inspect_last_seen (gs : list Greenlet) (ts : list nat) (result : Result) :
  inspect gs ts result
  = inl (match last_seen gs ts with
         | Some r => outcome_of r
         | None => result
         end).
Proof.
  revert result. induction ts as [|t ts IH]; intros result; [done |].
  cbn [inspect]. rewrite last_seen_cons.
  destruct (greenlet gs t) as [| |r]; cbn; [| | destruct (bool_of (exn r)); cbn];
    rewrite IH; by destruct (last_seen gs ts).
Qed.

Lemma last_seen_app (gs : list Greenlet) (ts1 ts2 : list nat) :
  last_seen gs (ts1 ++ ts2) =
    match last_seen gs ts2 with
    | Some r => Some r
    | None => last_seen gs ts1
    end.
Proof. unfold last_seen. by rewrite omap_app, last_app. Qed.

Lemma last_seen_none (gs : list Greenlet) (ts : list nat) :
  (forall t, t ∈ ts -> truth (exception (greenlet gs t)) = false) ->
  last_seen gs ts = None.
Proof.
  induction ts as [|t ts IH]; intros Hts; [done |].
  rewrite last_seen_cons, IH.
  - specialize (Hts t ltac:(left)).
    destruct (greenlet gs t) as [| |r]; [done | done |]. cbn in Hts. by rewrite Hts.
  - intros u Hu. apply Hts. by right.
Qed.

Lemma last_seen_ext (gs gs' : list Greenlet) (ts : list nat) :
  (forall t, t ∈ ts -> greenlet gs t = greenlet gs' t) ->
  last_seen gs ts = last_seen gs' ts.
Proof.
  induction ts as [|t ts IH]; intros Hts; [done |].
  rewrite !last_seen_cons, IH, (Hts t); [done | by left |].
  intros u Hu. apply Hts. by right.
Qed.

Lemma last_seen_true (gs : list Greenlet) (ts : list nat) (r : Raised) :
  last_seen gs ts = Some r -> bool_of (exn r) = true.
Proof.
  induction ts as [|t ts IH]; [done |].
  rewrite last_seen_cons.
  destruct (last_seen gs ts) as [r'|]; [intros [= ->]; by apply IH |].
  destruct (greenlet gs t) as [| |r']; [done | done |].
  destruct (bool_of (exn r')) eqn:Hb; [| done]. by intros [= <-].
Qed.

(** The loop agrees with the words of the specification as long as every
    failure it meets is true in a boolean context. *)
Lemma last_seen_last_failed (gs : list Greenlet) (ts : list nat) :
  (forall t r, t ∈ ts -> greenlet gs t = Failed r -> bool_of (exn r) = true) ->
  last_seen gs ts = last_failed gs ts.
Proof.
  intros Hts. unfold last_seen, last_failed. f_equal.
  induction ts as [|t ts IH]; [done |].
  cbn [omap list_omap].
  rewrite IH by (intros u r Hu; apply Hts; by right).
  pose proof (Hts t) as Ht.
  destruct (greenlet gs t) as [| |r]; [done | done |].
  by rewrite (Ht r ltac:(left) eq_refl).
Qed.

End InspectFacts.

(** *** A run in which no call raises *)

Section RunCalm.

Variable env : Env.
Hypothesis Hcalm : forall c, raises env c = None.

Lemma call_calm (c : Call) (s : World * list Call) :
  call env c s = ((fst s, snd s ++ [c]), inl tt).
Proof. unfold call. by rewrite Hcalm. Qed.

Lemma gevent_spawn_calm (s : World * list Call) :
  gevent_spawn env s
  = (({| app := app (fst s); greenlets := greenlets (fst s) ++ [Pending] |},
      snd s ++ [spawn (length (greenlets (fst s)))]),
     inl (length (greenlets (fst s)))).
Proof.
  unfold gevent_spawn, mbind, M_bind, bind, get, modify, ret.
  cbn [fst snd]. by rewrite call_calm.
Qed.

Lemma spawn_windows_calm (n : nat) :
  forall (i : nat) (s : World * list Call),
  exists s',
    spawn_windows env i n s = (s', inl tt) /\
    threads (app (fst s'))
    = threads (app (fst s)) ++ seq (length (greenlets (fst s))) n /\
    greenlets (fst s') = greenlets (fst s) ++ replicate n Pending /\
    scr (app (fst s')) = scr (app (fst s)).
Proof.
  induction n as [|n IH]; intros i s.
  { exists s. cbn. by rewrite !app_nil_r. }
  cbn [spawn_windows]. unfold mbind, M_bind, bind.
  rewrite gevent_spawn_calm. unfold modify. cbn [fst snd].
  match goal with |- context [spawn_windows env (S i) n ?s1] =>
    destruct (IH (S i) s1) as (s' & -> & Hts & Hgs & Hscr) end.
  exists s'. split; [done |]. cbn in Hts, Hgs, Hscr.
  rewrite Hts, Hgs, Hscr, length_app. cbn.
  rewrite <- !app_assoc, Nat.add_1_r. done.
Qed.

(** The [try] body after [curses.initscr()]: one greenlet per window of
    the registry and one for the input loop are spawned and appended to
    [self.threads], all of [self.threads] is joined, and the handles are
    inspected. *)
Lemma run_with_screen_calm (result : Result) (s : World * list Call) :
  exists s',
    run_with_screen env result s
    = (s', inspect (greenlets (fst s')) (threads (app (fst s'))) result) /\
    threads (app (fst s'))
    = threads (app (fst s))
      ++ seq (length (greenlets (fst s))) (S (length (WINDOWS env))) /\
    greenlets (fst s')
    = imap (settle env (threads (app (fst s'))))
        (greenlets (fst s) ++ replicate (S (length (WINDOWS env))) Pending) /\
    scr (app (fst s')) = scr (app (fst s)) /\
    In (joinall (threads (app (fst s')))) (snd s').
Proof.
  unfold run_with_screen, _run_windows, gevent_joinall, mbind, M_bind, bind,
    get, modify, lift.
  repeat (rewrite call_calm; cbn [fst snd]).
  cbn [with_app app MAX_WIDTH MAX_HEIGHT set_maxyx set_window].
  repeat (rewrite call_calm; cbn [fst snd]).
  match goal with |- context [spawn_windows env 0 _ ?s1] =>
    destruct (spawn_windows_calm (length (WINDOWS env)) 0 s1)
      as (s2 & -> & Hts & Hgs & Hscr) end.
  rewrite gevent_spawn_calm. cbn [fst snd]. rewrite call_calm, Hcalm. cbn [fst snd].
  match goal with |- exists s', (?x, _) = _ /\ _ => exists x end.
  split; [reflexivity |].
  cbn in Hts, Hgs, Hscr. cbn.
  rewrite Hts, Hgs, Hscr, length_app, length_replicate.
  assert (Hseq : forall g N, seq g N ++ [(g + N)%nat] = g :: seq (S g) N).
  { intros g N. symmetry. apply (seq_S N g). }
  assert (Hrep : forall N, replicate N Pending ++ [Pending]
                           = Pending :: replicate N Pending).
  { intros N. symmetry. apply (replicate_S_end N Pending). }
  rewrite <- !app_assoc, Hseq, Hrep.
  repeat split. rewrite !in_app_iff. right. right. by left.
Qed.

(** The whole call: it returns the [Result] of the inspection, having made
    the four calls of the clean-up. *)
Lemma run_calm (w : World) :
  exists w' log,
    run env w = (w', log, inspect (greenlets w') (threads (app w')) Result__init__) /\
    threads (app w')
    = threads (app w) ++ seq (length (greenlets w)) (S (length (WINDOWS env))) /\
    greenlets w'
    = imap (settle env (threads (app w')))
        (greenlets w ++ replicate (S (length (WINDOWS env))) Pending) /\
    In (joinall (threads (app w'))) log.
Proof.
  unfold run, finally, try_except. rewrite run_body_eq, Hcalm. cbn [fst snd].
  destruct (run_with_screen_calm Result__init__
              (with_app (set_scr (Some Stdscr)) w, [] ++ [initscr]))
    as (s' & -> & Hts & Hgs & Hscr & Hin).
  cbn [fst snd] in Hts, Hgs, Hscr.
  assert (Hfin : exists x, run_finally env s'
             = ((fst s', snd s' ++ attempted env (cleanup_calls Stdscr)), inl x)).
  { destruct (run_finally_some env s' Stdscr Hscr) as ([x | r] & Heq & Hx);
      [by exists x |].
    destruct Hx as (c & _ & Hc). by rewrite Hcalm in Hc. }
  destruct Hfin as (x & Hfin).
  exists (fst s'), (snd s' ++ attempted env (cleanup_calls Stdscr)).
  split; [| split; [exact Hts | split; [exact Hgs |]]].
  - rewrite inspect_last_seen. cbv beta iota zeta. by rewrite Hfin.
  - rewrite in_app_iff. by left.
Qed.

End RunCalm.

(** *** The [Result] of a run, and of a second run *)

Section RunResult.

Lemma greenlet_imap_settle (env : Env) (ts : list nat) (gs : list Greenlet) (t : nat) :
  greenlet (imap (settle env ts) gs) t
  = default Pending (settle env ts t <$> gs !! t).
Proof. unfold greenlet. by rewrite list_lookup_imap. Qed.

Lemma settle_finished (env : Env) (ts : list nat) (t : nat) (g : Greenlet) :
  g <> Pending -> settle env ts t g = g.
Proof. by destruct g. Qed.

Lemma settle_joined (env : Env) (ts : list nat) (t : nat) :
  t ∈ ts ->
  settle env ts t Pending
  = match outcome env t with
    | Some r => Failed r
    | None => Succeeded
    end.
Proof. intros Ht. cbn. by rewrite bool_decide_eq_true_2. Qed.

(** C3, as the code has it.  When no call of the run raises, [run] joins
    the task handles and returns a [Result] that holds the class, the
    instance and the traceback of the last handle of the task list whose
    exception is true in a boolean context (a new [Result] when there is
    none), whatever the handles before it record.  That is the last handle
    that records a failure, as the specification has it, only as long as
    no failed handle holds an exception that is false in a boolean
    context. *)
Theorem run_keeps_last_seen_failure (env : Env) (w : World)
    (Hcalm : forall c, raises env c = None) :
  let w' := world_after env w in
  In (joinall (threads (app w'))) (calls_of env w) /\
  returned env w
  = inl (match last_seen (greenlets w') (threads (app w')) with
         | Some r => outcome_of r
         | None => Result__init__
         end) /\
  ((forall t r, t ∈ threads (app w') ->
      greenlet (greenlets w') t = Failed r -> bool_of (exn r) = true) ->
   last_seen (greenlets w') (threads (app w'))
   = last_failed (greenlets w') (threads (app w'))) /\
  (forall gs earlier ts result,
     match last_seen gs ts with
     | Some r => inspect gs (earlier ++ ts) result = inl (outcome_of r)
     | None => True
     end).
Proof.
  intros w'. unfold w', world_after, returned, calls_of.
  destruct (run_calm env Hcalm w) as (w1 & log & -> & _ & _ & Hin).
  cbn [fst snd]. split; [done |]. split; [apply inspect_last_seen |].
  split; [apply last_seen_last_failed |].
  intros gs earlier ts result.
  destruct (last_seen gs ts) as [r|] eqn:Hlast; [| done].
  by rewrite inspect_last_seen, last_seen_app, Hlast.
Qed.

End RunResult.

(** C3 at the failing input: the last task to fail raises an exception that
    is false in a boolean context, and [run] returns the failure of an
    earlier task; when it is the only task to fail, [run] returns a new
    [Result], which reads as a run without error. *)
Lemma run_keeps_last_seen_failure_witness :
  let env := calm [idle_window; idle_window]
               (outcomes [Some (ValueError "first"); Some (Falsy "second"); None]) in
  let env' := calm [idle_window; idle_window]
                (outcomes [None; Some (Falsy "second"); None]) in
  (forall c, raises env c = None) /\
  last_failed (greenlets (world_after env new_world))
              (threads (app (world_after env new_world))) = Some (Falsy "second") /\
  returned env new_world = inl (outcome_of (ValueError "first")) /\
  last_failed (greenlets (world_after env' new_world))
              (threads (app (world_after env' new_world))) = Some (Falsy "second") /\
  returned env' new_world = inl Result__init__ /\
  ok Result__init__ = true.
Proof.
  intros env env'. split; [reflexivity |]. split; [reflexivity |].
  split;
    [exact (proj1 (proj2 (run_keeps_last_seen_failure env new_world
                            (fun _ => eq_refl)))) |].
  split; [reflexivity |].
  split;
    [exact (proj1 (proj2 (run_keeps_last_seen_failure env' new_world
                            (fun _ => eq_refl)))) |].
  reflexivity.
Defined.

(** *** Two runs of one controller *)

Section RunTwice.

(** [run] only ever appends to [self.threads], whatever raises. *)
Lemma run_extends_threads (env : Env) (w : World) :
  threads (app w) `prefix_of` threads (app (world_after env w)).
Proof.
  pose (Q := fun a b : CursedApp => threads a `prefix_of` threads b).
  assert (Hrefl : forall a, Q a a) by (intros a; by unfold Q).
  assert (Htrans : forall a b c, Q a b -> Q b c -> Q a c).
  { intros a b c Hab Hbc. unfold Q in *. by etrans. }
  assert (Hbody : along Q (run_body env Result__init__)).
  { unfold run_body.
    apply (along_bind Q Htrans); [apply (along_call Q Hrefl) | intros _].
    apply (along_bind Q Htrans);
      [apply along_modify; intros v; by unfold Q | intros _].
    apply (along_run_with_screen Q Hrefl Htrans);
      intros a l; unfold Q; cbn; by try apply prefix_app_r. }
  unfold world_after, run.
  apply (along_finally Q Htrans
           (try_except (run_body env Result__init__) (run_except Result__init__))
           (run_finally env)).
  - apply (along_try_except Q Htrans); [done |].
    intros r. apply (along_run_except Q Hrefl).
  - apply (along_run_finally Q Hrefl Htrans).
Qed.

(** The handles a calm run of a new controller leaves are all finished. *)
Lemma first_run_finished (env : Env) (gs0 : list Greenlet) (n t : nat) :
  let ts := seq (length gs0) n in
  t ∈ ts ->
  exists g, imap (settle env ts) (gs0 ++ replicate n Pending) !! t = Some g
            /\ g <> Pending.
Proof.
  intros ts Ht. pose proof Ht as Hrange. apply elem_of_seq in Hrange.
  rewrite list_lookup_imap, lookup_app_r by lia.
  rewrite lookup_replicate_2 by lia. cbn [fmap option_fmap option_map].
  eexists. split; [reflexivity |].
  rewrite settle_joined by done. by destruct (outcome env t).
Qed.

(** C10, as the code has it.  [run] never resets [self.threads]: after any
    call the list starts with what it was before.  On a new controller,
    after a first run in which no call raises, a second run in which no
    call raises and every task it spawns finishes without error inspects
    the handles of the first run again and returns what the first run
    returned: the failure of the last handle of the first run whose
    exception is true in a boolean context, and a new [Result] when the
    first run has no such handle, whatever failures its handles record. *)
Theorem run_twice_reports_seen_failure
    (env1 env2 : Env) (gs0 : list Greenlet) (seen : option Raised)
    (Hcalm1 : forall c, raises env1 c = None)
    (Hcalm2 : forall c, raises env2 c = None) :
  let w0 := {| app := CursedApp__init__; greenlets := gs0 |} in
  let w1 := world_after env1 w0 in
  let w2 := world_after env2 w1 in
  let res := match seen with
             | Some r => outcome_of r
             | None => Result__init__
             end in
  last_seen (greenlets w1) (threads (app w1)) = seen ->
  (forall g, (length (greenlets w1) <= g)%nat -> outcome env2 g = None) ->
  (forall env w, threads (app w) `prefix_of` threads (app (world_after env w))) /\
  threads (app w2)
  = threads (app w1) ++ seq (length (greenlets w1)) (S (length (WINDOWS env2))) /\
  returned env1 w0 = inl res /\
  returned env2 w1 = inl res /\
  ok res = match seen with Some _ => false | None => true end.
Proof.
  intros w0 w1 w2 res Hseen Hok2.
  split; [apply run_extends_threads |].
  unfold w2, w1, returned, world_after in *.
  destruct (run_calm env1 Hcalm1 w0) as (v1 & log1 & Hrun1 & Hts1 & Hgs1 & _).
  rewrite Hrun1 in *. cbn [fst snd] in *.
  destruct (run_calm env2 Hcalm2 v1) as (v2 & log2 & Hrun2 & Hts2 & Hgs2 & _).
  rewrite Hrun2. cbn [fst snd].
  split; [exact Hts2 |].
  rewrite !inspect_last_seen, Hseen.
  split; [done |]. split.
  2:{ unfold res. destruct seen as [r|]; [| done].
      unfold ok. cbn. by rewrite (last_seen_true _ _ _ Hseen). }
  cbn [w0 app threads greenlets CursedApp__init__ app] in Hts1, Hgs1.
  rewrite app_nil_l in Hts1.
  assert (Hold : forall t, t ∈ threads (app v1) ->
            exists g, greenlets v1 !! t = Some g /\ g <> Pending).
  { intros t Ht. rewrite Hgs1. rewrite Hts1 in Ht |- *.
    by apply first_run_finished. }
  assert (Hsame : forall t, t ∈ threads (app v1) ->
            greenlet (greenlets v2) t = greenlet (greenlets v1) t).
  { intros t Ht. destruct (Hold t Ht) as (g & Hg & Hne).
    rewrite Hgs2, greenlet_imap_settle.
    rewrite lookup_app_l by (by apply lookup_lt_Some in Hg).
    unfold greenlet. rewrite Hg. cbn. by apply settle_finished. }
  assert (Hnew : forall t,
            t ∈ seq (length (greenlets v1)) (S (length (WINDOWS env2))) ->
            truth (exception (greenlet (greenlets v2) t)) = false).
  { intros t Ht. pose proof Ht as Hrange. apply elem_of_seq in Hrange.
    rewrite Hgs2, greenlet_imap_settle.
    rewrite lookup_app_r by lia. rewrite lookup_replicate_2 by lia.
    cbn [fmap option_fmap option_map default].
    rewrite settle_joined by (rewrite Hts2; apply elem_of_app; by right).
    by rewrite Hok2 by lia. }
  rewrite Hts2, last_seen_app, (last_seen_none _ _ Hnew).
  by rewrite (last_seen_ext _ _ _ Hsame), Hseen.
Qed.

End RunTwice.

(** C10 at the failing input: the task of the first run that fails raises
    an exception that is false in a boolean context; both runs return a new
    [Result], and the failure of the first run is in neither. *)
Lemma run_twice_reports_seen_failure_witness :
  let env1 := calm [idle_window; idle_window]
                (outcomes [None; Some (Falsy "boom"); None]) in
  let env2 := calm [idle_window] (outcomes []) in
  let w1 := world_after env1 new_world in
  (forall c, raises env1 c = None) /\
  last_failed (greenlets w1) (threads (app w1)) = Some (Falsy "boom") /\
  last_seen (greenlets w1) (threads (app w1)) = None /\
  threads (app w1) = [0; 1; 2]%nat /\
  threads (app (world_after env2 w1)) = [0; 1; 2; 3; 4]%nat /\
  returned env1 new_world = inl Result__init__ /\
  returned env2 w1 = inl Result__init__.
Proof.
  intros env1 env2 w1.
  pose proof (run_twice_reports_seen_failure env1 env2 [] None
                (fun _ => eq_refl) (fun _ => eq_refl) eq_refl
                (fun _ _ => eq_refl)) as (_ & Hts & Hret1 & Hret2 & _).
  split; [reflexivity |]. split; [reflexivity |]. split; [reflexivity |].
  split; [reflexivity |].
  split; [exact Hts |]. split; [exact Hret1 | exact Hret2].
Defined.

(* ===================================================================== *)
(** ** Properties of the window registry *)
(* ===================================================================== *)

Section RegistryFacts.

Import Meta.

Lemma setattr_name (new : PyClass) (key : string) (value : PyVal) :
  cls_name (setattr new key value) = cls_name new.
Proof. reflexivity. Qed.

Lemma getattr_setattr_eq (new : PyClass) (key : string) (value : PyVal) :
  getattr (setattr new key value) key = Some value.
Proof. apply lookup_insert_eq. Qed.

Lemma getattr_setattr_ne (new : PyClass) (key key' : string) (value : PyVal) :
  key <> key' -> getattr (setattr new key value) key' = getattr new key'.
Proof. intros Hne. by apply lookup_insert_ne. Qed.

Lemma new_reserved (p : Process) (name : string) (parents : list string)
    (dct : gmap string PyVal) :
  name ∈ BASE_CURSED_CLASSES ->
  __new__ p name parents dct
  = ({| cls_name := name; cls_bases := parents; cls_dict := dct |}, p).
Proof. intros Hname. unfold __new__. by rewrite bool_decide_eq_true_2. Qed.

Lemma new_name (p : Process) (name : string) (parents : list string)
    (dct : gmap string PyVal) :
  cls_name (fst (__new__ p name parents dct)) = name.
Proof. unfold __new__. by case_bool_decide. Qed.

Lemma new_registry (p : Process) (name : string) (parents : list string)
    (dct : gmap string PyVal) :
  WINDOWS (snd (__new__ p name parents dct))
  = if bool_decide (name ∈ BASE_CURSED_CLASSES) then WINDOWS p
    else WINDOWS p ++ [fst (__new__ p name parents dct)].
Proof. unfold __new__. by case_bool_decide. Qed.

(** The names in the registry after a run of class statements: those that
    were there, then the names declared that are not reserved, in the order
    of the statements. *)
Lemma declare_all_names (ds : list Decl) (p : Process) :
  cls_name <$> WINDOWS (declare_all p ds)
  = (cls_name <$> WINDOWS p)
    ++ filter (fun name => name ∉ BASE_CURSED_CLASSES) (decl_name <$> ds).
Proof.
  revert p. induction ds as [|d ds IH]; intros p.
  { cbn. by rewrite app_nil_r. }
  cbn [declare_all fold_left]. fold (declare_all (declare p d) ds).
  rewrite IH. unfold declare at 1. rewrite new_registry.
  rewrite fmap_cons, filter_cons.
  case_bool_decide as Hname.
  - by rewrite decide_False by (intros Hn; by apply Hn).
  - rewrite decide_True by done.
    by rewrite fmap_app, <- app_assoc, fmap_cons, new_name.
Qed.

(** C4.  A class statement whose name is not reserved and whose body sets
    none of the eight attributes gives the class the default of each, three
    queues that did not exist before, each empty and each its own, no
    native window, no application, an empty key map and no open menu, and
    puts the class at the end of the registry, once; so the names of
    classes declared one after the other stand in the registry in the order
    of their declarations. *)
Theorem new_window_class_defaults (p : Process) (name : string)
    (parents : list string) (dct : gmap string PyVal)
    (Hname : name ∉ BASE_CURSED_CLASSES)
    (Hdct : Forall (fun key => dct !! key = None) OVERRIDES) :
  let new := fst (__new__ p name parents dct) in
  let p' := snd (__new__ p name parents dct) in
  let q := length (queues p) in
  (getattr new "WIDTH" = Some (VInt 80) /\
   getattr new "HEIGHT" = Some (VInt 24) /\
   getattr new "X" = Some (VInt 0) /\
   getattr new "Y" = Some (VInt 0) /\
   getattr new "BORDERED" = Some (VBool false) /\
   getattr new "SCROLL" = Some (VBool false) /\
   getattr new "WAIT" = Some (VBool true) /\
   getattr new "MENU" = Some VNone) /\
  (getattr new "EVENTS" = Some (VQueue q) /\
   getattr new "RESULTS" = Some (VQueue (S q)) /\
   getattr new "KEY_EVENTS" = Some (VQueue (S (S q))) /\
   queues p' = queues p ++ [[]; []; []]) /\
  (getattr new "WINDOW" = Some VNone /\
   getattr new "APP" = Some VNone /\
   getattr new "_KEYMAP" = Some (VDict []) /\
   getattr new "_OPENED_MENU" = Some VNone) /\
  WINDOWS p' = WINDOWS p ++ [new] /\
  (forall ds,
     cls_name <$> WINDOWS (declare_all p ds)
     = (cls_name <$> WINDOWS p)
       ++ filter (fun name => name ∉ BASE_CURSED_CLASSES) (decl_name <$> ds)).
Proof.
  intros new p' q.
  assert (Hget : forall key d, key ∈ OVERRIDES -> dct_get dct key d = d).
  { intros key d Hkey. unfold dct_get.
    rewrite Forall_forall in Hdct. by rewrite (Hdct key Hkey). }
  unfold new, p', __new__. rewrite bool_decide_eq_false_2 by done.
  cbn [fst snd Queue queues Meta.WINDOWS].
  rewrite !Hget by (unfold OVERRIDES; repeat constructor).
  rewrite !length_app. cbn [length]. rewrite !Nat.add_1_r.
  repeat split;
    try (repeat (rewrite getattr_setattr_ne by discriminate);
         apply getattr_setattr_eq).
  - by rewrite <- !app_assoc.
  - intros ds. apply declare_all_names.
Qed.

(** C8.  A class statement with one of the three reserved names leaves the
    process as it was, registry and queues, and the class has the
    attributes of its body and no other. *)
Theorem reserved_name_not_registered (p : Process) (name : string)
    (parents : list string) (dct : gmap string PyVal)
    (Hname : name ∈ BASE_CURSED_CLASSES) :
  let new := fst (__new__ p name parents dct) in
  let p' := snd (__new__ p name parents dct) in
  p' = p /\
  WINDOWS p' = WINDOWS p /\
  queues p' = queues p /\
  cls_dict new = dct /\
  (forall key, getattr new key = dct !! key).
Proof.
  intros new p'. unfold new, p'. by rewrite new_reserved.
Qed.

End RegistryFacts.

Lemma new_window_class_defaults_witness :
  let new := fst (Meta.__new__ Meta.empty_process "MainWindow" ["CursedWindow"]
                    Meta.update_only) in
  let p' := snd (Meta.__new__ Meta.empty_process "MainWindow" ["CursedWindow"]
                   Meta.update_only) in
  ("MainWindow" ∉ Meta.BASE_CURSED_CLASSES) /\
  Meta.getattr new "WIDTH" = Some (Meta.VInt 80) /\
  Meta.getattr new "KEY_EVENTS" = Some (Meta.VQueue 2) /\
  Meta.WINDOWS p' = [new].
Proof.
  intros new p'.
  assert (Hname : "MainWindow" ∉ Meta.BASE_CURSED_CLASSES).
  { apply (proj1 (bool_decide_eq_false _)). reflexivity. }
  assert (Hdct : Forall (fun key => Meta.update_only !! key = None) Meta.OVERRIDES).
  { repeat constructor. }
  pose proof (new_window_class_defaults Meta.empty_process "MainWindow"
                ["CursedWindow"] Meta.update_only Hname Hdct)
    as ((Hwidth & _) & (_ & _ & Hkeys & _) & _ & Hreg & _).
  split; [exact Hname |]. split; [exact Hwidth |].
  split; [exact Hkeys | exact Hreg].
Defined.

Lemma reserved_name_not_registered_witness :
  let p' := snd (Meta.__new__ Meta.empty_process "CursedWindow" [] Meta.update_only) in
  ("CursedWindow" ∈ Meta.BASE_CURSED_CLASSES) /\
  p' = Meta.empty_process.
Proof.
  intros p'.
  assert (Hname : "CursedWindow" ∈ Meta.BASE_CURSED_CLASSES).
  { apply (proj1 (bool_decide_eq_true _)). reflexivity. }
  split; [exact Hname |].
  exact (proj1 (reserved_name_not_registered Meta.empty_process "CursedWindow" []
                  Meta.update_only Hname)).
Defined.

(* ===================================================================== *)
(** ** Further properties of [Result] *)
(* ===================================================================== *)

Section ResultAgreement.

(** X1.  On every [Result], [ok], [err] and [unwrap] agree: [ok] is true
    exactly when [err] is [None] and exactly when [unwrap] returns; when
    [ok] is false, [unwrap] raises the very exception [err] returns, with
    the stored traceback. *)
Theorem Result_ok_err_unwrap_agree (res : Result) :
  (ok res = true <-> err res = None) /\
  (ok res = true <-> unwrap res = inl tt) /\
  (ok res = false <->
     exists e, err res = Some e /\ unwrap res = inr (mkRaised e (tb res))).
Proof.
  destruct res as [t [[ty msg [|]]|] trace]; unfold ok, err, unwrap; cbn.
  - repeat split; try done. intros _. by eexists.
  - repeat split; try done. by intros (e & He & _).
  - repeat split; try done. by intros (e & He & _).
Qed.

End ResultAgreement.

(* ===================================================================== *)
(** ** What [run] returns and what it lets through *)
(* ===================================================================== *)

Section RunOutcome.

Variable env : Env.

Lemma returns_bind {A B : Type} (P : B -> Prop) (m : M A) (f : A -> M B) :
  (forall a, returns P (f a)) -> returns P (m ≫= f).
Proof.
  intros Hf s s' b. unfold mbind, M_bind, bind.
  destruct (m s) as [s1 [a | r]]; [apply Hf | done].
Qed.

Lemma returns_lift {A : Type} (P : A -> Prop) (x : A + Raised) :
  (forall a, x = inl a -> P a) -> returns P (lift x).
Proof. intros Hx s s' a. unfold lift. intros [= _ Ha]. by apply Hx. Qed.

Lemma run_with_screen_returns :
  returns well_formed (run_with_screen env Result__init__).
Proof.
  unfold run_with_screen.
  repeat (apply returns_bind; intros ?).
  apply returns_lift. intros res. rewrite inspect_last_seen. intros [= <-].
  destruct (last_seen _ _) as [r|]; [right; by exists r | by left].
Qed.

Lemma run_except_returns (r : Raised) (s s' : World * list Call) (res : Result) :
  run_except Result__init__ r s = (s', inl res) -> res = outcome_of r.
Proof.
  unfold run_except.
  destruct (isinstance (exn r) KeyboardInterrupt); [by intros [= _ <-] |].
  destruct (isinstance (exn r) Exception); [by intros [= _ <-] | done].
Qed.

Lemma run_except_raises (r r' : Raised) (s s' : World * list Call) :
  run_except Result__init__ r s = (s', inr r') ->
  r' = r /\ isinstance (exn r) KeyboardInterrupt = false
         /\ isinstance (exn r) Exception = false.
Proof.
  unfold run_except.
  destruct (isinstance (exn r) KeyboardInterrupt); [done |].
  destruct (isinstance (exn r) Exception); [done |].
  by intros [= _ <-].
Qed.

Lemma try_part_returns (w : World) (s1 : World * list Call) (res : Result) :
  try_except (run_body env Result__init__) (run_except Result__init__) (w, [])
  = (s1, inl res) ->
  well_formed res.
Proof.
  unfold try_except. rewrite run_body_eq. cbn [fst snd].
  destruct (raises env initscr) as [r|].
  - intros H. apply run_except_returns in H. right. by exists r.
  - destruct (run_with_screen env Result__init__ _) as [s' [a | r]] eqn:Hbody.
    + intros [= _ <-]. by eapply run_with_screen_returns.
    + intros H. apply run_except_returns in H. right. by exists r.
Qed.

Lemma run_returns_well_formed (w : World) (res : Result) :
  returned env w = inl res -> well_formed res.
Proof.
  unfold returned, run, finally.
  destruct (try_except _ _ (w, [])) as [s1 res1] eqn:Htry.
  destruct (run_finally env s1) as [s2 [u | r]]; cbn [snd]; [| done].
  intros ->. by eapply try_part_returns.
Qed.

Lemma string_length_append (a b : string) :
  String.length (a +:+ b) = (String.length a + String.length b)%nat.
Proof.
  induction a as [|c a IH]; [done |].
  change (S (String.length (a +:+ b)) = S (String.length a + String.length b)).
  by rewrite IH.
Qed.

(** The general rendering is never the rendering of success. *)
Lemma repr_general_not_okay (name msg : string) :
  "Result(" +:+ name +:+ ", message=" +:+ msg +:+ ")" <> "Result(OKAY)".
Proof.
  intros Heq. apply (f_equal String.length) in Heq.
  rewrite !string_length_append in Heq. cbn in Heq. lia.
Qed.

(** X2.  Whatever happens during the call, a [Result] that [run] returns
    is coherent: the class stored is the class of the instance stored, and
    there is none exactly when there is no instance; when [ok] is false
    there is a class stored and [err] is the instance stored; and when no
    class is stored [ok] is true, [err] is [None], [unwrap] returns,
    [print_exc] writes nothing and [interrupted] is false. *)
Theorem run_result_coherent (w : World) (res : Result)
    (Hret : returned env w = inl res) :
  exc_type res = type_of <$> exc res /\
  (ok res = false -> exc_type res <> None /\ err res = exc res) /\
  (exc_type res = None ->
     ok res = true /\ err res = None /\ unwrap res = inl tt /\
     print_exc res = [] /\ interrupted res = false).
Proof.
  destruct (run_returns_well_formed w res Hret) as [-> | (r & ->)]; [by cbn |].
  split; [done |]. split; [| done].
  unfold ok, err. cbn. by destruct (bool_of (exn r)).
Qed.

(** X3.  The rendering of a [Result] that [run] returns is
    ["Result(OKAY)"] exactly when it holds no exception class, which is
    exactly when it holds no exception; a [Result] whose [ok] is false never
    renders as ["Result(OKAY)"]. *)
Theorem run_result_repr_okay_iff_nothing_stored (w : World) (res : Result)
    (Hret : returned env w = inl res) :
  (__repr__ res = "Result(OKAY)" <-> exc_type res = None) /\
  (exc_type res = None <-> exc res = None) /\
  (ok res = false -> __repr__ res <> "Result(OKAY)").
Proof.
  destruct (run_returns_well_formed w res Hret) as [-> | (r & ->)]; [by cbn |].
  assert (Hrepr : __repr__ (outcome_of r) <> "Result(OKAY)").
  { unfold __repr__. cbn [outcome_of exc_type exc].
    destruct (interrupted _); [done |]. apply repr_general_not_okay. }
  split; [split; [done | by cbn] |]. split; [by cbn |]. done.
Qed.

(** X4.  No [KeyboardInterrupt] and no other [Exception] raised in the
    [try] body leaves [run]: what [run] lets through is an exception that
    is an instance of neither, or one that a call of the clean-up has
    raised. *)
Theorem run_propagates_only_uncaught (w : World) (r : Raised)
    (Hprop : returned env w = inr r) :
  (isinstance (exn r) KeyboardInterrupt = false /\
   isinstance (exn r) Exception = false) \/
  (exists s c, scr (app (world_after env w)) = Some s /\
               In c (cleanup_calls s) /\ raises env c = Some r).
Proof.
  revert Hprop. unfold returned, world_after, run, finally.
  destruct (try_except _ _ (w, [])) as [s1 res1] eqn:Htry.
  destruct (scr (app (fst s1))) as [sc|] eqn:Hscr.
  - destruct (run_finally_some env s1 sc Hscr) as ([u | r'] & -> & Hx);
      cbn [fst snd].
    + intros ->. left. revert Htry. unfold try_except.
      destruct (run_body env Result__init__ (w, [])) as [s0 [a | r0]]; [done |].
      intros H. by apply run_except_raises in H as (-> & ? & ?).
    + intros [= <-]. right. destruct Hx as (c & Hc & Hr). by exists sc, c.
  - rewrite run_finally_none by done. cbn [snd].
    intros ->. left. revert Htry. unfold try_except.
    destruct (run_body env Result__init__ (w, [])) as [s0 [a | r0]]; [done |].
    intros H. by apply run_except_raises in H as (-> & ? & ?).
Qed.

(** X5.  When [curses.initscr()] raises on a controller that holds no
    screen, [run] makes no other call and leaves the controller and the
    greenlets as they were; it returns a [Result] holding the exception if
    that is a [KeyboardInterrupt] or an [Exception], and lets it through
    otherwise. *)
Theorem run_initscr_raises (w : World) (r : Raised)
    (Hscr : scr (app w) = None)
    (Hinit : raises env initscr = Some r) :
  world_after env w = w /\
  calls_of env w = [initscr] /\
  returned env w =
    if isinstance (exn r) KeyboardInterrupt || isinstance (exn r) Exception
    then inl (outcome_of r) else inr r.
Proof.
  unfold world_after, calls_of, returned, run, finally, try_except.
  rewrite run_body_eq, Hinit. cbn [fst snd]. unfold run_except.
  destruct (isinstance (exn r) KeyboardInterrupt);
    [| destruct (isinstance (exn r) Exception)];
    cbn [orb]; unfold ret, raise; by rewrite run_finally_none.
Qed.

End RunOutcome.

Lemma run_result_coherent_witness :
  let env := calm [idle_window] (outcomes [Some (ValueError "boom")]) in
  returned env new_world = inl (outcome_of (ValueError "boom")) /\
  exc_type (outcome_of (ValueError "boom"))
  = type_of <$> exc (outcome_of (ValueError "boom")).
Proof.
  intros env. split; [reflexivity |].
  exact (proj1 (run_result_coherent env new_world _ eq_refl)).
Defined.

Lemma run_result_repr_okay_iff_nothing_stored_witness :
  let env := calm [idle_window] (outcomes []) in
  returned env new_world = inl Result__init__ /\
  (__repr__ Result__init__ = "Result(OKAY)" <-> exc_type Result__init__ = None).
Proof.
  intros env. split; [reflexivity |].
  exact (proj1 (run_result_repr_okay_iff_nothing_stored env new_world _ eq_refl)).
Defined.

Lemma run_propagates_only_uncaught_witness :
  let env := raising is_initscr (SystemExit "0") [] (outcomes []) in
  returned env new_world = inr (SystemExit "0") /\
  isinstance (exn (SystemExit "0")) Exception = false.
Proof.
  intros env. split; [reflexivity |].
  destruct (run_propagates_only_uncaught env new_world (SystemExit "0") eq_refl)
    as [[_ Hexc] | (s & c & Hs & _)]; [exact Hexc | discriminate Hs].
Defined.

Lemma run_initscr_raises_witness :
  scr (app new_world) = None /\
  raises no_terminal initscr
  = Some (curses_error "setupterm: could not find terminal") /\
  calls_of no_terminal new_world = [initscr].
Proof.
  split; [reflexivity |]. split; [reflexivity |].
  exact (proj1 (proj2 (run_initscr_raises no_terminal new_world _ eq_refl eq_refl))).
Defined.

(* ===================================================================== *)
(** ** A run followed call by call *)
(* ===================================================================== *)

Section RunToJoin.

Variable env : Env.
Hypothesis Hsetup : Forall (fun c => raises env c = None) (setup_calls env).
Hypothesis Hspawn : forall g, raises env (spawn g) = None.

Lemma gevent_spawn_ok (s : World * list Call) :
  gevent_spawn env s
  = (({| app := app (fst s); greenlets := greenlets (fst s) ++ [Pending] |},
      snd s ++ [spawn (length (greenlets (fst s)))]),
     inl (length (greenlets (fst s)))).
Proof.
  unfold gevent_spawn, mbind, M_bind, bind, get, modify, ret, call.
  cbn [fst snd]. by rewrite Hspawn.
Qed.

Lemma spawn_windows_ok (n : nat) :
  forall (i : nat) (w : World) (log : list Call),
    spawn_windows env i n (w, log)
    = (({| app := set_threads (threads (app w) ++ seq (length (greenlets w)) n)
                    (set_windows
                       (assign_threads i (length (greenlets w)) n <$> windows (app w))
                       (app w));
           greenlets := greenlets w ++ replicate n Pending |},
        log ++ map spawn (seq (length (greenlets w)) n)),
       inl tt).
Proof.
  induction n as [|n IH]; intros i w log.
  { cbn. rewrite !app_nil_r. destruct w as [[? ? [ws|] ? ? ? ?] gs]; done. }
  cbn [spawn_windows]. unfold mbind, M_bind, bind.
  rewrite gevent_spawn_ok. unfold modify. cbn [fst snd]. rewrite IH.
  destruct w as [[sc ts [ws|] rn mh mw wn] gs];
    cbn; rewrite length_app, Nat.add_1_r, <- !app_assoc; done.
Qed.

(** The [try] body up to and with the call of [gevent.joinall]. *)
Lemma run_body_to_join (result : Result) (w : World) :
  run_body env result (w, [])
  = let w1 := world_at_join env w in
    let ts := threads (app w1) in
    let log := calls_until_join env w ++ [joinall ts] in
    match raises env (joinall ts) with
    | Some r => ((tasks_ran env (cut_short env ts) w1, log), inr r)
    | None =>
        ((tasks_ran env (settle env ts) w1, log),
         inspect (imap (settle env ts) (greenlets w1)) ts result)
    end.
Proof.
  pose proof Hsetup as H. unfold setup_calls in H.
  repeat (apply Forall_cons in H as [? H]).
  rewrite run_body_eq.
  unfold run_with_screen, _run_windows, gevent_joinall, mbind, M_bind, bind,
    get, modify, lift, call.
  repeat (match goal with Hc : raises env _ = None |- _ => rewrite Hc end;
          cbn [fst snd with_app app MAX_WIDTH MAX_HEIGHT set_maxyx set_window
               set_scr]).
  rewrite spawn_windows_ok, gevent_spawn_ok.
  cbn [fst snd with_app app greenlets threads windows set_threads set_windows
       set_maxyx set_window set_scr world_at_join calls_until_join setup_calls
       fmap option_fmap option_map scr running MAX_HEIGHT MAX_WIDTH window].
  rewrite length_app, length_replicate.
  assert (Hlog : forall (l : list Call) g n,
            (l ++ map spawn (seq g n)) ++ [spawn (g + n)]
            = l ++ map spawn (seq g (S n))).
  { intros l g n. by rewrite seq_S, map_app, app_assoc. }
  rewrite Hlog.
  rewrite <- !(app_assoc (threads (app w))), <- seq_S.
  rewrite <- !(app_assoc (greenlets w)), <- replicate_S_end.
  destruct w as [[sc ts ws rn mh mw wn] gs].
  unfold world_at_join, calls_until_join, setup_calls, with_app, set_threads,
    set_windows, set_window, set_maxyx, set_scr.
  cbn [app greenlets threads scr windows running MAX_HEIGHT MAX_WIDTH window].
  rewrite <- ?(app_assoc ts), <- ?seq_S.
  by destruct (raises env (joinall _)).
Qed.

(** The state in which the [try] statement leaves is the state in which
    its body leaves, and the [finally] clause adds its calls to the log. *)
Lemma run_split (w : World) :
  let s1 := fst (run_body env Result__init__ (w, [])) in
  world_after env w = fst s1 /\
  calls_of env w
  = snd s1 ++ match scr (app (fst s1)) with
              | Some s => attempted env (cleanup_calls s)
              | None => []
              end.
Proof.
  unfold world_after, calls_of, run, finally, try_except.
  destruct (run_body env Result__init__ (w, [])) as [s0 [a | r]] eqn:Hbody;
    cbn [fst snd].
  - destruct (scr (app (fst s0))) as [sc|] eqn:Hscr.
    + destruct (run_finally_some env s0 sc Hscr) as ([u | r'] & -> & _); done.
    + rewrite run_finally_none by done. cbn. by rewrite app_nil_r.
  - pose proof (run_except_state Result__init__ r s0) as Hst.
    destruct (run_except Result__init__ r s0) as [s1 res]. cbn in Hst. subst s1.
    destruct (scr (app (fst s0))) as [sc|] eqn:Hscr.
    + destruct (run_finally_some env s0 sc Hscr) as ([u | r'] & -> & _); done.
    + rewrite run_finally_none by done. cbn. by rewrite app_nil_r.
Qed.

End RunToJoin.

Section RunFollowed.

Variable env : Env.

Lemma run_finally_clean (s : World * list Call) (sc : CursesWin) :
  scr (app (fst s)) = Some sc ->
  Forall (fun c => raises env c = None) (cleanup_calls sc) ->
  run_finally env s = ((fst s, snd s ++ cleanup_calls sc), inl tt).
Proof.
  intros Hscr Hclean.
  destruct (run_finally_some env s sc Hscr) as ([[] | r] & -> & Hx).
  - by rewrite Hx.
  - destruct Hx as (c & Hin & Hc). rewrite Forall_forall in Hclean.
    apply list_elem_of_In in Hin. by rewrite (Hclean c Hin) in Hc.
Qed.

(** X6.  When every call up to the join returns and [gevent.joinall]
    itself raises a [KeyboardInterrupt] or another [Exception] (a key
    interrupt while the tasks run, say), [run] returns a [Result] holding
    that exception, after the four calls of the clean-up, which are the
    last calls of the run; the tasks spawned are left in [self.threads].
    The [Result] of a [KeyboardInterrupt] renders as
    ["Result(KeyboardInterrupt)"]. *)
Theorem run_caught_at_join (w : World) (r : Raised)
    (Hsetup : Forall (fun c => raises env c = None) (setup_calls env))
    (Hspawn : forall g, raises env (spawn g) = None)
    (Hjoin : raises env (joinall (threads (app (world_at_join env w)))) = Some r)
    (Hcaught : isinstance (exn r) KeyboardInterrupt
               || isinstance (exn r) Exception = true)
    (Hclean : Forall (fun c => raises env c = None) (cleanup_calls Stdscr)) :
  returned env w = inl (outcome_of r) /\
  threads (app (world_after env w))
  = threads (app w) ++ seq (length (greenlets w)) (S (length (WINDOWS env))) /\
  calls_of env w
  = calls_until_join env w
    ++ [joinall (threads (app w)
                 ++ seq (length (greenlets w)) (S (length (WINDOWS env))))]
    ++ cleanup_calls Stdscr /\
  (if bool_decide (type_of (exn r) = KeyboardInterrupt)
   then __repr__ (outcome_of r) = "Result(KeyboardInterrupt)"
        /\ interrupted (outcome_of r) = true
   else interrupted (outcome_of r) = false).
Proof.
  unfold returned, world_after, calls_of, run, finally, try_except.
  rewrite (run_body_to_join env Hsetup Hspawn). cbv zeta. rewrite Hjoin.
  assert (Hexc : forall s, run_except Result__init__ r s = (s, inl (outcome_of r))).
  { intros s. unfold run_except.
    destruct (isinstance (exn r) KeyboardInterrupt); [done |].
    by destruct (isinstance (exn r) Exception). }
  rewrite Hexc, (run_finally_clean _ Stdscr) by done.
  cbn [fst snd]. rewrite <- app_assoc.
  repeat split.
  unfold __repr__, interrupted. cbn [outcome_of exc_type].
  case_bool_decide as Hki.
  - rewrite Hki. by rewrite !bool_decide_eq_true_2.
  - rewrite bool_decide_eq_false_2; [done | congruence].
Qed.

(** X7.  When no call of the run raises, the calls are, in this order:
    the ten calls that set the terminal up ([fix_windows] being given the
    width, then the height, that [getmaxyx] returned height first), one
    [spawn] for each window of the registry and one more for the input
    loop, the join of all of [self.threads], and the four calls of the
    clean-up. *)
Theorem run_calm_calls (w : World)
    (Hcalm : forall c, raises env c = None) :
  calls_of env w
  = [initscr; getmaxyx; noecho; cbreak; start_color; use_default_colors;
     subwin 0 0; keypad Subwin 1; nodelay Subwin 1;
     fix_windows (snd (maxyx env)) (fst (maxyx env))]
    ++ map spawn (seq (length (greenlets w)) (S (length (WINDOWS env))))
    ++ [joinall (threads (app w)
                 ++ seq (length (greenlets w)) (S (length (WINDOWS env))))]
    ++ [keypad Stdscr 0; echo; nocbreak; endwin].
Proof.
  assert (Hsetup : Forall (fun c => raises env c = None) (setup_calls env)).
  { apply Forall_forall. intros c _. apply Hcalm. }
  unfold calls_of, run, finally, try_except.
  rewrite (run_body_to_join env Hsetup (fun g => Hcalm (spawn g))). cbv zeta.
  rewrite Hcalm, inspect_last_seen, (run_finally_clean _ Stdscr);
    [| done | apply Forall_forall; intros c _; apply Hcalm].
  cbn [fst snd]. unfold calls_until_join, setup_calls, cleanup_calls.
  cbn [world_at_join app threads]. by rewrite <- !app_assoc.
Qed.

End RunFollowed.

Section RunWindows.

Variable env : Env.





(** X9.  When no call of the run raises, every task finishes without
    error and no handle already in [self.threads] records a failure, [run]
    returns a [Result] for which [ok] is true. *)
Theorem run_all_succeed_ok (w : World)
    (Hcalm : forall c, raises env c = None)
    (Hout : forall g, outcome env g = None)
    (Hold : forall t, t ∈ threads (app w) ->
              exception (greenlet (greenlets w) t) = None) :
  returned env w = inl Result__init__ /\
  ok Result__init__ = true /\
  __repr__ Result__init__ = "Result(OKAY)".
Proof.
  split; [| done].
  unfold returned.
  destruct (run_calm env Hcalm w) as (w' & log & -> & Hts & Hgs & _).
  cbn [snd]. rewrite inspect_last_seen, last_seen_none; [done |].
  intros t Ht. rewrite Hgs, greenlet_imap_settle.
  destruct ((greenlets w ++ replicate _ Pending) !! t) as [g|] eqn:Hg;
    cbn [fmap option_fmap option_map default]; [| done].
  destruct g as [| |r0]; cbn; [case_bool_decide; by rewrite ?Hout | done |].
  exfalso. apply lookup_app_Some in Hg as [Hg | [_ Hg]].
  - rewrite Hts in Ht. apply elem_of_app in Ht as [Ht | Ht].
    + specialize (Hold t Ht). unfold greenlet in Hold. by rewrite Hg in Hold.
    + apply elem_of_seq in Ht. apply lookup_lt_Some in Hg. lia.
  - by apply lookup_replicate in Hg as [? _].
Qed.

(** A call of the terminal set-up that raises ends the [try] body on the
    spot. *)
Lemma run_body_setup_failure (result : Result) (w : World) :
  Exists (fun c => raises env c <> None) (setup_calls env) ->
  let s1 := fst (run_body env result (w, [])) in
  greenlets (fst s1) = greenlets w /\
  threads (app (fst s1)) = threads (app w) /\
  windows (app (fst s1)) = windows (app w) /\
  snd s1 = attempted env (setup_calls env).
Proof.
  intros Hfail. unfold setup_calls in *. cbn [attempted].
  rewrite run_body_eq.
  destruct (raises env initscr) eqn:E0; [done |].
  unfold run_with_screen, _run_windows, mbind, M_bind, bind, call, modify, get.
  cbn [fst snd].
  destruct (raises env getmaxyx) eqn:E1; [done |].
  destruct (raises env noecho) eqn:E2; [done |].
  destruct (raises env cbreak) eqn:E3; [done |].
  destruct (raises env start_color) eqn:E4; [done |].
  destruct (raises env use_default_colors) eqn:E5; [done |].
  destruct (raises env (subwin 0 0)) eqn:E6; [done |].
  destruct (raises env (keypad Subwin 1)) eqn:E7; [done |].
  destruct (raises env (nodelay Subwin 1)) eqn:E8; [done |].
  cbn [with_app app MAX_WIDTH MAX_HEIGHT set_maxyx set_window fst snd].
  destruct (raises env (fix_windows _ _)) eqn:E9; [done |].
  exfalso.
  repeat (apply Exists_cons in Hfail as [Hfail | Hfail]; [congruence |]).
  by apply Exists_nil in Hfail.
Qed.

(** X10.  When one of the ten calls that set the terminal up raises, the
    call of [fix_windows] included, [run] spawns nothing: the greenlets,
    [self.threads] and [self.windows] are as before the call, and the calls
    of the run are the set-up calls up to and with the one that raised, then
    those of the clean-up if a screen is held. *)
Theorem run_setup_failure_spawns_nothing (w : World)
    (Hfail : Exists (fun c => raises env c <> None) (setup_calls env)) :
  let w' := world_after env w in
  greenlets w' = greenlets w /\
  threads (app w') = threads (app w) /\
  windows (app w') = windows (app w) /\
  calls_of env w
  = attempted env (setup_calls env)
    ++ match scr (app w') with
       | Some s => attempted env (cleanup_calls s)
       | None => []
       end.
Proof.
  intros w'. unfold w'.
  destruct (run_split env w) as (-> & ->).
  destruct (run_body_setup_failure Result__init__ w Hfail) as (Hgs & Hts & Hws & ->).
  done.
Qed.

End RunWindows.

Lemma run_caught_at_join_witness :
  let env := raising is_joinall interrupt [idle_window] (outcomes []) in
  raises env (joinall (threads (app (world_at_join env new_world)))) = Some interrupt /\
  returned env new_world = inl (outcome_of interrupt) /\
  threads (app (world_after env new_world)) = [0; 1]%nat /\
  calls_of env new_world
  = setup_calls env ++ [spawn 0; spawn 1; joinall [0; 1]%nat]
    ++ [keypad Stdscr 0; echo; nocbreak; endwin].
Proof.
  intros env.
  pose proof (run_caught_at_join env new_world interrupt
                ltac:(repeat constructor) (fun _ => eq_refl) eq_refl eq_refl
                ltac:(repeat constructor)) as (Hret & Hts & Hcalls & _).
  split; [reflexivity |]. split; [exact Hret |]. split; [exact Hts | exact Hcalls].
Defined.

Lemma run_calm_calls_witness :
  let env := calm [idle_window; idle_window] (outcomes []) in
  (forall c, raises env c = None) /\
  calls_of env new_world
  = [initscr; getmaxyx; noecho; cbreak; start_color; use_default_colors;
     subwin 0 0; keypad Subwin 1; nodelay Subwin 1; fix_windows 80 24;
     spawn 0; spawn 1; spawn 2; joinall [0; 1; 2]%nat;
     keypad Stdscr 0; echo; nocbreak; endwin].
Proof.
  intros env. split; [reflexivity |].
  exact (run_calm_calls env new_world (fun _ => eq_refl)).
Defined.


Lemma run_all_succeed_ok_witness :
  let env := calm [idle_window] (outcomes []) in
  (forall c, raises env c = None) /\
  (forall g, outcome env g = None) /\
  returned env new_world = inl Result__init__.
Proof.
  intros env.
  assert (Hout : forall g, outcome env g = None).
  { intros g. unfold env, calm, outcomes. cbn. by rewrite lookup_nil. }
  assert (Hold : forall t, t ∈ threads (app new_world) ->
                   exception (greenlet (greenlets new_world) t) = None).
  { intros t Ht. cbn in Ht. by apply elem_of_nil in Ht. }
  split; [reflexivity |]. split; [exact Hout |].
  exact (proj1 (run_all_succeed_ok env new_world (fun _ => eq_refl) Hout Hold)).
Defined.

Lemma run_setup_failure_spawns_nothing_witness :
  let env := raising is_fix_windows (ValueError "window does not fit")
               [idle_window] (outcomes []) in
  raises env (fix_windows 80 24) = Some (ValueError "window does not fit") /\
  greenlets (world_after env new_world) = [] /\
  windows (app (world_after env new_world)) = None /\
  calls_of env new_world
  = [initscr; getmaxyx; noecho; cbreak; start_color; use_default_colors;
     subwin 0 0; keypad Subwin 1; nodelay Subwin 1; fix_windows 80 24;
     keypad Stdscr 0; echo; nocbreak; endwin].
Proof.
  intros env.
  assert (Hfail : Exists (fun c => raises env c <> None) (setup_calls env)).
  { unfold setup_calls. do 9 apply Exists_cons_tl. apply Exists_cons_hd.
    discriminate. }
  destruct (run_setup_failure_spawns_nothing env new_world Hfail)
    as (Hgs & _ & Hws & Hcalls).
  split; [reflexivity |]. split; [exact Hgs |]. split; [exact Hws | exact Hcalls].
Defined.

(* ===================================================================== *)
(** ** Further properties of the input-dispatch loop *)
(* ===================================================================== *)

Section ScanFacts.

Lemma scan_passed_over (gs : list Greenlet) (pre l : list CursedWindow) :
  forallb (passed_over gs) pre = true -> scan gs (pre ++ l) = scan gs l.
Proof.
  induction pre as [|cw pre IH]; [done |].
  cbn [forallb]. intros [Hcw Hpre]%andb_true_iff.
  rewrite <- app_comm_cons. cbn [scan]. unfold passed_over in Hcw.
  destruct (THREAD cw) as [g|]; [| done].
  apply andb_true_iff in Hcw as [Hexc Hquiet].
  apply bool_decide_eq_true in Hexc. apply negb_true_iff in Hquiet.
  rewrite bool_decide_eq_false_2 by (by intros []).
  rewrite Hquiet. by apply IH.
Qed.

Lemma scan_nobody_iff (gs : list Greenlet) (ws : list CursedWindow) :
  scan gs ws = Nobody <-> forallb (passed_over gs) ws = true.
Proof.
  induction ws as [|cw ws IH]; [done |].
  cbn [scan forallb]. unfold passed_over.
  destruct (THREAD cw) as [g|]; [| done].
  destruct (decide (exception (greenlet gs g) = None)) as [Hexc | Hexc].
  - rewrite bool_decide_eq_false_2 by (by intros ?).
    rewrite bool_decide_eq_true_2 by done.
    cbn [andb]. destruct (RUNNING cw && WAIT cw); [done |].
    cbn [negb]. by rewrite IH.
  - rewrite bool_decide_eq_true_2 by done.
    by rewrite bool_decide_eq_false_2 by done.
Qed.

(** X11.  The scan is decided by the first window it does not pass over:
    after windows whose tasks have not raised and that are not both
    running and waiting, a window whose task has raised makes it
    [Failure], and a running and waiting window whose task has not raised
    makes it [Listening], whatever the windows behind it are, a failed task
    among them included; and it is [Nobody] exactly when every window is
    passed over. *)
Theorem scan_first_decisive (gs : list Greenlet)
    (pre : list CursedWindow) (cw : CursedWindow) (rest : list CursedWindow)
    (Hpre : forallb (passed_over gs) pre = true) :
  (if task_failed gs cw then scan gs (pre ++ cw :: rest) = Failure
   else if listening gs cw then scan gs (pre ++ cw :: rest) = Listening
   else True) /\
  (forall ws, scan gs ws = Nobody <-> forallb (passed_over gs) ws = true).
Proof.
  split; [| apply scan_nobody_iff].
  rewrite scan_passed_over by done. cbn [scan].
  unfold task_failed, listening.
  destruct (THREAD cw) as [g|]; [| done].
  destruct (decide (exception (greenlet gs g) = None)) as [Hexc | Hexc].
  - rewrite !(bool_decide_eq_false_2 (_ <> _)) by (by intros ?).
    rewrite bool_decide_eq_true_2 by done. cbn [andb].
    by destruct (RUNNING cw && WAIT cw).
  - by rewrite !(bool_decide_eq_true_2 (_ <> _)) by done.
Qed.

End ScanFacts.

Lemma scan_first_decisive_witness :
  let gs := [Succeeded; Pending; Failed (ValueError "boom")] in
  let quiet_one := mkWindow (Some 0%nat) false true [] in
  let waiting := mkWindow (Some 1%nat) true true [] in
  let broken := mkWindow (Some 2%nat) true true [] in
  forallb (passed_over gs) [quiet_one] = true /\
  scan gs ([quiet_one] ++ waiting :: [broken]) = Listening.
Proof.
  intros gs quiet_one waiting broken. split; [reflexivity |].
  exact (proj1 (scan_first_decisive gs [quiet_one] waiting [broken] eq_refl)).
Defined.

Section LoopEnds.

Variable sched : nat -> World -> World.
Variable tty : nat -> Z.

(** X12.  When the loop is entered with [self.running] true and the scan
    passes over every window (none has a failed task, none is both running
    and waiting; so too when there is no window at all), the loop ends in
    its first iteration: it does not yield, reads no character, puts
    nothing in any queue, and changes nothing but [self.running], which it
    sets to false. *)
Theorem input_loop_stops_when_nobody_listens
    (fuel k : nat) (w : World) (ws : list CursedWindow)
    (Hrun : running (app w) = true)
    (Hws : windows (app w) = Some ws)
    (Hall : forallb (passed_over (greenlets w)) ws = true) :
  _input_loop sched tty (S fuel) k w
  = (with_app (set_running false) w, [], Finished).
Proof.
  rewrite input_loop_step by done. unfold iteration. rewrite Hws.
  by rewrite (proj2 (scan_nobody_iff (greenlets w) ws) Hall).
Qed.

Lemma iteration_break (k : nat) (w w1 : World) (tr : list Call) :
  iteration sched tty k w = (w1, tr, Break) -> running (app w1) = false.
Proof.
  unfold iteration.
  destruct (windows (app w)) as [ws|]; [| done].
  destruct (scan (greenlets w) ws); try done.
  - intros H. pose proof (poll_not_break sched tty k (stop_all w)) as Hnb.
    by rewrite H in Hnb.
  - intros H. pose proof (poll_not_break sched tty k w) as Hnb.
    by rewrite H in Hnb.
  - by intros [= <- _].
Qed.

Lemma input_loop_finished_running (fuel : nat) :
  forall (k : nat) (w w' : World) (tr : list Call),
    _input_loop sched tty fuel k w = (w', tr, Finished) ->
    running (app w') = false.
Proof.
  induction fuel as [|fuel IH]; intros k w w' tr.
  { cbn. destruct (running (app w)) eqn:Hrun; [done |]. by intros [= <- _]. }
  destruct (running (app w)) eqn:Hrun;
    [rewrite input_loop_step by done
    | rewrite input_loop_stopped by done; by intros [= <- _]].
  destruct (iteration sched tty k w) as [[w1 tr1] e] eqn:Hit.
  destruct e; [| | done].
  - destruct (_input_loop sched tty fuel (S k) w1) as [[w2 tr2] st] eqn:Hloop.
    intros [= <- _ ->]. by eapply IH.
  - intros [= <- _]. by eapply iteration_break.
Qed.

(** X13.  Whenever the loop returns, [self.running] is false; and since
    nothing in [run] sets it again, entering the loop once more on that
    controller, with whatever tasks and keys, returns at once: no yield, no
    read, no put, nothing changed. *)
Theorem input_loop_finished_stays_stopped
    (fuel k : nat) (w w' : World) (tr : list Call)
    (Hfin : _input_loop sched tty fuel k w = (w', tr, Finished)) :
  running (app w') = false /\
  (forall sched' tty' fuel' k',
     _input_loop sched' tty' fuel' k' w' = (w', [], Finished)).
Proof.
  assert (Hrun : running (app w') = false)
    by (by eapply input_loop_finished_running).
  split; [done |]. intros sched' tty' fuel' k'. by apply input_loop_stopped.
Qed.

End LoopEnds.

Section LoopAlone.

Variable tty : nat -> Z.

Lemma scan_put (gs : list Greenlet) (c : Z) (ws : list CursedWindow) :
  scan gs (map (KEY_EVENTS_put c) ws) = scan gs ws.
Proof.
  induction ws as [|cw ws IH]; [done |].
  cbn [map scan KEY_EVENTS_put THREAD RUNNING WAIT]. by rewrite IH.
Qed.

(** X14.  The loop has no way out but the windows and the tasks: when
    the controller holds its sub-window, a window listens (the scan is
    [Listening]) and no other task changes anything, the loop is still
    running after any number of iterations, each of which has read the
    terminal once, whatever the keys. *)
Theorem input_loop_never_ends_while_listening (fuel : nat) :
  forall (k : nat) (w : World) (ws : list CursedWindow) (win : CursesWin)
    (Hrun : running (app w) = true)
    (Hwin : window (app w) = Some win)
    (Hws : windows (app w) = Some ws)
    (Hlisten : scan (greenlets w) ws = Listening),
  snd (_input_loop quiet tty fuel k w) = OutOfFuel /\
  length (chars_read (snd (fst (_input_loop quiet tty fuel k w)))) = fuel.
Proof.
  induction fuel as [|fuel IH]; intros k w ws win Hrun Hwin Hws Hlisten.
  { cbn. by rewrite Hrun. }
  rewrite input_loop_step by done.
  unfold iteration. rewrite Hws, Hlisten. unfold poll.
  change (quiet k w) with w. rewrite Hwin.
  destruct (tty k =? -1) eqn:Hc.
  - specialize (IH (S k) w ws win Hrun Hwin Hws Hlisten).
    destruct (_input_loop quiet tty fuel (S k) w) as [[w2 tr2] st].
    cbn [fst snd] in *. split; [by destruct IH |].
    rewrite chars_read_app, length_app. cbn. by destruct IH as [_ ->].
  - unfold broadcast. rewrite Hws.
    match goal with |- context [_input_loop quiet tty fuel (S k) ?v] =>
      specialize (IH (S k) v (map (KEY_EVENTS_put (tty k)) ws) win Hrun Hwin eq_refl);
      destruct (_input_loop quiet tty fuel (S k) v) as [[w2 tr2] st] end.
    cbn [greenlets with_app] in IH. rewrite scan_put in IH.
    specialize (IH Hlisten). cbn [fst snd] in *. split; [by destruct IH |].
    rewrite !chars_read_app, !length_app.
    unfold puts. rewrite chars_read_puts. cbn. by destruct IH as [_ ->].
Qed.

(** X15.  When no other task touches the queues, what the loop has put is
    what the queue holds: after any number of iterations the [KEY_EVENTS]
    queue of each window holds what it held before, followed by the keys
    read since, [-1] left out, in the order read. *)
Theorem input_loop_queue_contents (fuel : nat) :
  forall (k i : nat) (w : World) (q : list Z)
    (Hq : queue i w = Some q),
  queue i (fst (fst (_input_loop quiet tty fuel k w)))
  = Some (q ++ keys_read (snd (fst (_input_loop quiet tty fuel k w)))).
Proof.
  intros k i w q Hq.
  by apply (input_loop_queue quiet tty (fun _ _ _ => eq_refl)).
Qed.

End LoopAlone.

Lemma input_loop_stops_when_nobody_listens_witness :
  running (app no_windows_world) = true /\
  _input_loop quiet (typed [97]) 1 0 no_windows_world
  = (with_app (set_running false) no_windows_world, [], Finished).
Proof.
  split; [reflexivity |].
  exact (input_loop_stops_when_nobody_listens quiet (typed [97]) 0 0
           no_windows_world [] eq_refl eq_refl eq_refl).
Defined.

Lemma input_loop_finished_stays_stopped_witness :
  let w' := fst (fst (_input_loop quiet (typed [97]) 1 0 one_failed_world)) in
  snd (_input_loop quiet (typed [97]) 1 0 one_failed_world) = Finished /\
  running (app w') = false /\
  _input_loop quiet (typed [98]) 5 0 w' = (w', [], Finished).
Proof.
  intros w'.
  destruct (input_loop_finished_stays_stopped quiet (typed [97]) 1 0
              one_failed_world w' [sleep 0; getch 97; put 0 97] eq_refl)
    as (Hrun & Hagain).
  split; [reflexivity |]. split; [exact Hrun |].
  exact (Hagain quiet (typed [98]) 5%nat 0%nat).
Defined.

Lemma input_loop_never_ends_while_listening_witness :
  window (app two_windows_world) = Some Subwin /\
  scan (greenlets two_windows_world)
    (default [] (windows (app two_windows_world))) = Listening /\
  snd (_input_loop quiet (typed [97]) 3 0 two_windows_world) = OutOfFuel.
Proof.
  split; [reflexivity |]. split; [reflexivity |].
  exact (proj1 (input_loop_never_ends_while_listening (typed [97]) 3 0
                  two_windows_world _ Subwin eq_refl eq_refl eq_refl eq_refl)).
Defined.

Lemma input_loop_queue_contents_witness :
  queue 1 two_windows_world = Some [] /\
  queue 1 (fst (fst (_input_loop quiet (typed [97; -1; 98]) 4 0 two_windows_world)))
  = Some [97; 98].
Proof.
  split; [reflexivity |].
  exact (input_loop_queue_contents (typed [97; -1; 98]) 4 0 1 two_windows_world
           [] eq_refl).
Defined.

(* ===================================================================== *)
(** ** Further properties of the window registry *)
(* ===================================================================== *)

Section RegistryMore.

Import Meta.

(** What [__new__] does for a name that is not reserved, whatever the
    body: three new queues, and the class at the end of the registry. *)
Lemma new_registered (p : Process) (name : string) (parents : list string)
    (dct : gmap string PyVal) :
  name ∉ BASE_CURSED_CLASSES ->
  let new := fst (__new__ p name parents dct) in
  let p' := snd (__new__ p name parents dct) in
  let q := length (queues p) in
  getattr new "EVENTS" = Some (VQueue q) /\
  getattr new "RESULTS" = Some (VQueue (q + 1)) /\
  getattr new "KEY_EVENTS" = Some (VQueue (q + 2)) /\
  queues p' = queues p ++ [[]; []; []] /\
  WINDOWS p' = WINDOWS p ++ [new].
Proof.
  intros Hname new p' q.
  unfold new, p', __new__. rewrite bool_decide_eq_false_2 by done.
  cbn [fst snd Queue queues Meta.WINDOWS].
  rewrite !length_app. cbn [length]. rewrite <- !Nat.add_assoc. cbn [Nat.add].
  repeat split;
    try (repeat (rewrite getattr_setattr_ne by discriminate);
         apply getattr_setattr_eq).
  by rewrite <- !app_assoc.
Qed.

(** X16.  A class statement whose name is not reserved and whose body
    sets one of the eight attributes that can be overridden gives the class
    the value of the body, not the default. *)
Theorem new_window_class_overrides (p : Process) (name : string)
    (parents : list string) (dct : gmap string PyVal) (key : string) (v : PyVal)
    (Hname : name ∉ BASE_CURSED_CLASSES)
    (Hkey : key ∈ OVERRIDES)
    (Hv : dct !! key = Some v) :
  getattr (fst (__new__ p name parents dct)) key = Some v.
Proof.
  unfold __new__. rewrite bool_decide_eq_false_2 by done.
  cbn [fst snd Queue queues Meta.WINDOWS].
  unfold OVERRIDES in Hkey.
  repeat (apply elem_of_cons in Hkey as [-> | Hkey]);
    [.. | by apply elem_of_nil in Hkey];
    repeat (rewrite getattr_setattr_ne by discriminate);
    rewrite getattr_setattr_eq; unfold dct_get; by rewrite Hv.
Qed.

(** X17.  A class statement whose name is not reserved cannot set the
    native window, the application, the key map, the open menu or the three
    queues: whatever its body gives for them is replaced; every attribute
    of the body that [__new__] does not set is kept as the body has it. *)
Theorem new_window_class_fixed_attributes (p : Process) (name : string)
    (parents : list string) (dct : gmap string PyVal)
    (Hname : name ∉ BASE_CURSED_CLASSES) :
  let new := fst (__new__ p name parents dct) in
  let q := length (queues p) in
  getattr new "WINDOW" = Some VNone /\
  getattr new "APP" = Some VNone /\
  getattr new "_KEYMAP" = Some (VDict []) /\
  getattr new "_OPENED_MENU" = Some VNone /\
  getattr new "EVENTS" = Some (VQueue q) /\
  getattr new "RESULTS" = Some (VQueue (q + 1)) /\
  getattr new "KEY_EVENTS" = Some (VQueue (q + 2)) /\
  (forall key, key ∉ SET_ATTRS -> getattr new key = dct !! key).
Proof.
  intros new q.
  destruct (new_registered p name parents dct Hname) as (He & Hr & Hk & _).
  repeat split; try done.
  1-4: unfold new, __new__; rewrite bool_decide_eq_false_2 by done;
       cbn [fst snd Queue queues Meta.WINDOWS];
       repeat (rewrite getattr_setattr_ne by discriminate);
       apply getattr_setattr_eq.
  intros key Hkey.
  assert (Hne : Forall (fun k => k <> key) SET_ATTRS).
  { apply Forall_forall. intros k Hk' ->. by apply Hkey. }
  unfold SET_ATTRS in Hne.
  repeat (apply Forall_cons in Hne as [? Hne]).
  unfold new, __new__. rewrite bool_decide_eq_false_2 by done.
  cbn [fst snd Queue queues Meta.WINDOWS].
  by repeat (rewrite getattr_setattr_ne by done).
Qed.

Lemma declare_step (p : Process) (d : Decl) :
  WINDOWS (declare p d)
  = WINDOWS p ++ (if bool_decide (decl_name d ∈ BASE_CURSED_CLASSES) then []
                  else [fst (__new__ p (decl_name d) (decl_parents d) (decl_dct d))]) /\
  queues (declare p d)
  = queues p ++ (if bool_decide (decl_name d ∈ BASE_CURSED_CLASSES) then []
                 else [[]; []; []]).
Proof.
  unfold declare. case_bool_decide as Hname.
  - rewrite new_reserved by done. cbn. by rewrite !app_nil_r.
  - by destruct (new_registered p (decl_name d) (decl_parents d) (decl_dct d) Hname)
      as (_ & _ & _ & -> & ->).
Qed.

(** X18.  Class statements only ever add to the process: after any run of
    them the registry and the list of queues start with what they were,
    and the registry holds one class more, the process three queues more,
    for each statement whose name is not reserved. *)
Theorem declarations_append_only (ds : list Decl) (p : Process) :
  let registered :=
    length (filter (fun name => name ∉ BASE_CURSED_CLASSES) (decl_name <$> ds)) in
  WINDOWS p `prefix_of` WINDOWS (declare_all p ds) /\
  queues p `prefix_of` queues (declare_all p ds) /\
  length (WINDOWS (declare_all p ds)) = (length (WINDOWS p) + registered)%nat /\
  length (queues (declare_all p ds)) = (length (queues p) + 3 * registered)%nat.
Proof.
  revert p. induction ds as [|d ds IH]; intros p.
  { cbn. repeat split; try done; lia. }
  cbn [declare_all fold_left]. fold (declare_all (declare p d) ds).
  destruct (IH (declare p d)) as (Hw & Hq & Hlw & Hlq).
  destruct (declare_step p d) as (Hsw & Hsq).
  cbn zeta. rewrite fmap_cons, filter_cons.
  rewrite Hlw, Hlq, Hsw, Hsq, !length_app.
  split; [etrans; [| exact Hw]; rewrite Hsw; by apply prefix_app_r |].
  split; [etrans; [| exact Hq]; rewrite Hsq; by apply prefix_app_r |].
  case_bool_decide as Hname.
  - rewrite decide_False by (intros Hn; by apply Hn). cbn. lia.
  - rewrite decide_True by done. cbn. lia.
Qed.

Lemma declare_in_step (q0 : nat) (p : Process) (d : Decl) :
  queues_in_step q0 p -> queues_in_step q0 (declare p d).
Proof.
  intros (Hlen & Hcls). unfold queues_in_step.
  destruct (declare_step p d) as (-> & ->).
  case_bool_decide as Hname; [by rewrite !app_nil_r |].
  rewrite !length_app. cbn [length]. split; [lia |].
  intros k cls Hk. apply lookup_app_Some in Hk as [Hk | [Hge Hk]];
    [by apply Hcls |].
  apply list_lookup_singleton_Some in Hk as [Hk <-].
  destruct (new_registered p (decl_name d) (decl_parents d) (decl_dct d) Hname)
    as (He & Hr & Hke & _).
  rewrite He, Hr, Hke, Hlen.
  replace k with (length (WINDOWS p)) by lia. done.
Qed.

(** X19.  Starting from an empty registry, the [k]-th class registered
    holds the queues numbered [3k], [3k + 1] and [3k + 2] after those the
    process had: no two attributes of registered classes, of one class or
    of two, hold the same queue. *)
Theorem registered_classes_own_queues (ds : list Decl) (p : Process)
    (k : nat) (cls : PyClass)
    (Hempty : WINDOWS p = [])
    (Hk : WINDOWS (declare_all p ds) !! k = Some cls) :
  let q0 := length (queues p) in
  getattr cls "EVENTS" = Some (VQueue (q0 + 3 * k)) /\
  getattr cls "RESULTS" = Some (VQueue (q0 + 3 * k + 1)) /\
  getattr cls "KEY_EVENTS" = Some (VQueue (q0 + 3 * k + 2)).
Proof.
  intros q0.
  assert (Hstep : forall ds' p', queues_in_step q0 p' ->
                    queues_in_step q0 (declare_all p' ds')).
  { intros ds'. induction ds' as [|d ds' IH]; intros p' Hp'; [done |].
    cbn [declare_all fold_left]. apply IH. by apply declare_in_step. }
  assert (Hp : queues_in_step q0 p).
  { split; [rewrite Hempty; cbn; unfold q0; lia |].
    intros j c Hj. by rewrite Hempty in Hj. }
  by apply (Hstep ds p Hp).
Qed.

End RegistryMore.

Lemma new_window_class_overrides_witness :
  ("MainWindow" ∉ Meta.BASE_CURSED_CLASSES) /\
  Meta.wide_body !! "WIDTH" = Some (Meta.VStr "max") /\
  Meta.getattr (fst (Meta.__new__ Meta.empty_process "MainWindow" ["CursedWindow"]
                       Meta.wide_body)) "WIDTH"
  = Some (Meta.VStr "max").
Proof.
  assert (Hname : "MainWindow" ∉ Meta.BASE_CURSED_CLASSES).
  { apply (proj1 (bool_decide_eq_false _)). reflexivity. }
  assert (Hkey : "WIDTH" ∈ Meta.OVERRIDES) by (by left).
  split; [exact Hname |]. split; [reflexivity |].
  exact (new_window_class_overrides Meta.empty_process "MainWindow"
           ["CursedWindow"] Meta.wide_body "WIDTH" (Meta.VStr "max")
           Hname Hkey eq_refl).
Defined.

Lemma new_window_class_fixed_attributes_witness :
  ("MainWindow" ∉ Meta.BASE_CURSED_CLASSES) /\
  Meta.wide_body !! "APP" = Some (Meta.VObj 7) /\
  Meta.getattr (fst (Meta.__new__ Meta.empty_process "MainWindow" ["CursedWindow"]
                       Meta.wide_body)) "APP"
  = Some Meta.VNone.
Proof.
  assert (Hname : "MainWindow" ∉ Meta.BASE_CURSED_CLASSES).
  { apply (proj1 (bool_decide_eq_false _)). reflexivity. }
  split; [exact Hname |]. split; [reflexivity |].
  exact (proj1 (proj2 (new_window_class_fixed_attributes Meta.empty_process
                         "MainWindow" ["CursedWindow"] Meta.wide_body Hname))).
Defined.

Lemma registered_classes_own_queues_witness :
  let ds := [Meta.mkDecl "CursedWindow" [] ∅;
             Meta.mkDecl "Left" ["CursedWindow"] Meta.update_only;
             Meta.mkDecl "Right" ["CursedWindow"] Meta.wide_body] in
  exists cls,
    Meta.WINDOWS (Meta.declare_all Meta.empty_process ds) !! 1%nat = Some cls /\
    Meta.cls_name cls = "Right" /\
    Meta.getattr cls "KEY_EVENTS" = Some (Meta.VQueue 5).
Proof.
  intros ds.
  destruct (Meta.WINDOWS (Meta.declare_all Meta.empty_process ds) !! 1%nat)
    as [cls|] eqn:Hk; [| discriminate Hk].
  exists cls. split; [reflexivity |].
  split; [by injection Hk as <- |].
  exact (proj2 (proj2 (registered_classes_own_queues ds Meta.empty_process 1 cls
                         eq_refl Hk))).
Defined.
